(** * Incremental crawl-and-merge pipeline of the startup news tracker

    A shallow embedding of the URL reconciliation, index allocation,
    summarise stage and merge/commit code of [custom_web_bot], and the
    properties of the specification checked against it.

    Conventions of the embedding:
    - a Python [str] is a Rocq [string]; its characters stand for code
      points below 256, compared by code point as Python does;
    - Python integers are [Z];
    - a JSON file that holds an array of URLs is a [list string], a JSON
      file that holds an object is a [gmap string json];
    - the directories [urls/], [new_urls/] and [articles/] are finite maps
      from the file stem to the file's content: a missing key is a missing
      file;
    - the URL files hold well-formed JSON arrays of strings, so the
      [JSONDecodeError] branch of the scraper is not represented; a record
      file under [articles/] can hold text that is no JSON, and its stem is
      then listed in [unparsable]; [print] and [os.makedirs] are left out;
    - what comes from outside the repository is a parameter: the links that
      the crawler found for an xpath source, the results of the crawler, the
      answer of the LLM, [json.loads], and the order in which Python lists a
      set;
    - exceptions are values of [exn]; a computation is a function from the
      world to an outcome and the world it leaves behind, so that the writes
      made before an exception stay visible. *)

From Stdlib Require Import ZArith Ascii DecimalString DecimalZ.
From stdpp Require Import gmap strings list sorting.

Local Open Scope Z_scope.
Set Warnings "-clear-no-such-hyp".

(** ** Python values and primitives *)

Module Py.

(** Exceptions the modelled code can raise. *)
Inductive exn :=
  | KeyError (key : string)
  | IndexError
  | AttributeError
  | FileNotFoundError (path : string)
  | JSONDecodeError
  | NameError (name : string)
  | TypeError
  | LLMError.

(** JSON values as [json.load] returns them (numbers restricted to
    integers). *)
#[warnings="-register-all"]
Inductive json :=
  | JNull
  | JBool (b : bool)
  | JNum (z : Z)
  | JStr (s : string)
  | JArr (l : list json)
  | JObj (o : list (string * json)).

(** Truth value of a JSON value in an [if]. *)
Definition truthy (v : json) : bool :=
  match v with
  | JNull => false
  | JBool b => b
  | JNum z => negb (z =? 0)
  | JStr s => negb (String.eqb s "")
  | JArr l => match l with [] => false | _ => true end
  | JObj o => match o with [] => false | _ => true end
  end.

(** The integer for which a JSON value stands in [v + n] with an [int]
    [n]: a number is itself and a [bool] is an [int] (0 or 1); [None], a
    string, a list and a dict have no sum with an [int]. *)
Definition int_value (v : json) : option Z :=
  match v with
  | JNum z => Some z
  | JBool b => Some (if b then 1 else 0)
  | _ => None
  end.

(** [len(s)] *)
Definition len (s : string) : Z := Z.of_nat (String.length s).

(** Normalisation of a slice bound: negative bounds count from the end,
    and every bound is clamped to [0, len]. *)
Definition slice_bound (s : string) (i : Z) : Z :=
  if i <? 0 then Z.max 0 (i + len s) else Z.min i (len s).

(** [s[a:b]] *)
Definition slice (s : string) (a b : Z) : string :=
  let a' := slice_bound s a in
  let b' := slice_bound s b in
  String.substring (Z.to_nat a') (Z.to_nat (b' - a')) s.

(** [s[a:]] *)
Definition slice_from (s : string) (a : Z) : string :=
  slice s a (len s).

(** [s[i]] for [i >= 0]; [IndexError] out of range. *)
Definition item (s : string) (i : Z) : exn + ascii :=
  if (0 <=? i) && (i <? len s) then
    match String.get (Z.to_nat i) s with
    | Some c => inr c
    | None => inl IndexError
    end
  else inl IndexError.

(** [s.find(sub, start)] for a non-empty [sub]: the lowest index at or
    after [start] where [sub] occurs, [-1] when there is none. *)
Definition find (s sub : string) (start : Z) : Z :=
  match String.index (Z.to_nat (slice_bound s start)) sub s with
  | Some m => Z.of_nat m
  | None => -1
  end.

(** Code points below 256 for which [str.isspace] holds. *)
Definition isspace (c : ascii) : bool :=
  let n := Z.of_nat (nat_of_ascii c) in
  ((9 <=? n) && (n <=? 13)) || ((28 <=? n) && (n <=? 32))
  || (n =? 133) || (n =? 160).

Fixpoint lstrip (s : string) : string :=
  match s with
  | EmptyString => EmptyString
  | String c s' => if isspace c then lstrip s' else s
  end.

Fixpoint rstrip (s : string) : string :=
  match s with
  | EmptyString => EmptyString
  | String c s' =>
      let r := rstrip s' in
      if isspace c && String.eqb r "" then EmptyString else String c r
  end.

(** [s.strip()] *)
Definition strip (s : string) : string := rstrip (lstrip s).

(** [str(i)] for an integer. *)
Definition str (i : Z) : string := NilEmpty.string_of_int (Z.to_int i).

Fixpoint zeros (n : nat) : string :=
  match n with
  | O => EmptyString
  | S n' => String "0" (zeros n')
  end.

(** [s.zfill(width)]: zeros are inserted after a leading sign. *)
Definition zfill (s : string) (width : Z) : string :=
  if width <=? len s then s
  else
    let pad := zeros (Z.to_nat (width - len s)) in
    match s with
    | String c s' =>
        if Ascii.eqb c "+" || Ascii.eqb c "-" then String c (pad +:+ s')
        else pad +:+ s
    | EmptyString => pad
    end.

(** Order of [str] values: lexicographic by code point. *)
Definition str_le (a b : string) : Prop := String.leb a b = true.

#[global] Instance str_le_dec a b : Decision (str_le a b).
Proof. unfold str_le. apply _. Defined.

(** [sorted(l)] on a list of strings. *)
Definition sorted (l : list string) : list string := merge_sort str_le l.

(** [old in s] replaced from left to right, without overlap, for a
    non-empty [old]; [fuel] bounds the scan by the length of [s]. *)
Fixpoint replace_aux (fuel : nat) (s old new : string) : string :=
  match fuel with
  | O => s
  | S fuel' =>
      if String.prefix old s then
        new +:+ replace_aux fuel'
                  (String.substring (String.length old)
                     (String.length s - String.length old) s) old new
      else
        match s with
        | EmptyString => EmptyString
        | String c s' => String c (replace_aux fuel' s' old new)
        end
  end.

(** [s.replace(old, new)] for a non-empty [old]. *)
Definition replace (s old new : string) : string :=
  replace_aux (S (String.length s)) s old new.

End Py.

Export Py.

(** ** The world: files, configuration and the log of external calls *)

(** One entry of the source-config list ([sample_mapping.json]); a field
    that the JSON object lacks is [None]. The value of [article_cnt] is
    whatever JSON value the file holds there. *)
Record source_conf := SourceConf {
  conf_id : option string;
  conf_article_cnt : option json;
  conf_type : option string;
  conf_rss : option string;
  conf_url : option string;
  conf_xpath : option string;
}.

(** [url_conf.get("article_cnt", 0)], and the integer for which it stands
    in the arithmetic of the pipeline ([None] when it is no number). *)
Definition get_article_cnt (c : source_conf) : json :=
  default (JNum 0) (conf_article_cnt c).

Definition counter (c : source_conf) : option Z :=
  int_value (get_article_cnt c).

(** [articles_dir] holds the record files that parse, by stem;
    [unparsable] lists the stems of the files under [articles/] whose text
    is no JSON (a write cut short, say). A stem that [articles_dir] holds is
    read from there: writing a record replaces whatever the file held. *)
Record world := World {
  urls_dir : gmap string (list string);
  new_urls_dir : gmap string (list string);
  articles_dir : gmap string (gmap string json);
  map_file : option (list source_conf);
  llm_log : list string;
  unparsable : gset string;
}.

Definition set_urls_dir (f : gmap string (list string) → gmap string (list string))
    (w : world) : world :=
  World (f (urls_dir w)) (new_urls_dir w) (articles_dir w) (map_file w) (llm_log w)
        (unparsable w).

Definition set_new_urls_dir (f : gmap string (list string) → gmap string (list string))
    (w : world) : world :=
  World (urls_dir w) (f (new_urls_dir w)) (articles_dir w) (map_file w) (llm_log w)
        (unparsable w).

Definition set_articles_dir
    (f : gmap string (gmap string json) → gmap string (gmap string json))
    (w : world) : world :=
  World (urls_dir w) (new_urls_dir w) (f (articles_dir w)) (map_file w) (llm_log w)
        (unparsable w).

Definition set_map_file (m : option (list source_conf)) (w : world) : world :=
  World (urls_dir w) (new_urls_dir w) (articles_dir w) m (llm_log w) (unparsable w).

Definition log_llm (prompt : string) (w : world) : world :=
  World (urls_dir w) (new_urls_dir w) (articles_dir w) (map_file w)
        (llm_log w ++ [prompt]) (unparsable w).

(** ** Computations with exceptions over the world *)

Inductive outcome (A : Type) :=
  | Ret (a : A)
  | Raise (e : exn).
Arguments Ret {A} a.
Arguments Raise {A} e.

Definition M (A : Type) : Type := world → outcome A * world.

#[global] Instance M_ret : MRet M := λ A a w, (Ret a, w).

#[global] Instance M_bind : MBind M := λ A B f m w,
  match m w with
  | (Ret a, w') => f a w'
  | (Raise e, w') => (Raise e, w')
  end.

Definition raise {A} (e : exn) : M A := λ w, (Raise e, w).
Definition gets {A} (f : world → A) : M A := λ w, (Ret (f w), w).
Definition modify (f : world → world) : M unit := λ w, (Ret tt, f w).

(** [try: body except Exception: handler] *)
Definition try_except {A} (body : M A) (handler : exn → M A) : M A := λ w,
  match body w with
  | (Ret a, w') => (Ret a, w')
  | (Raise e, w') => handler e w'
  end.

(** [try: body except FileNotFoundError: handler]: every other exception
    leaves the [try]. *)
Definition try_except_not_found {A} (body : M A) (handler : M A) : M A := λ w,
  match body w with
  | (Ret a, w') => (Ret a, w')
  | (Raise (FileNotFoundError path), w') => handler w'
  | (Raise e, w') => (Raise e, w')
  end.

(** The first arithmetic on a counter read from the configuration:
    [TypeError] when the value is no number. *)
Definition as_int (v : json) : M Z :=
  match int_value v with
  | Some k => mret k
  | None => raise TypeError
  end.

(** [d[key]] on a configuration field. *)
Definition subscript {A} (key : string) (field : option A) : M A :=
  match field with
  | Some v => mret v
  | None => raise (KeyError key)
  end.

(** [os.path.exists], [json.load(open(path))] and [json.dump(.., open(path, "w"))]
    on the three directories. *)
Definition urls_exists (id : string) : M bool :=
  gets (λ w, bool_decide (is_Some (urls_dir w !! id))).
Definition new_urls_exists (id : string) : M bool :=
  gets (λ w, bool_decide (is_Some (new_urls_dir w !! id))).

Definition read_urls (id : string) : M (list string) := λ w,
  match urls_dir w !! id with
  | Some l => (Ret l, w)
  | None => (Raise (FileNotFoundError ("urls/" +:+ id +:+ ".json")), w)
  end.
Definition read_new_urls (id : string) : M (list string) := λ w,
  match new_urls_dir w !! id with
  | Some l => (Ret l, w)
  | None => (Raise (FileNotFoundError ("new_urls/" +:+ id +:+ ".json")), w)
  end.
Definition read_article (fileid : string) : M (gmap string json) := λ w,
  match articles_dir w !! fileid with
  | Some d => (Ret d, w)
  | None =>
      if decide (fileid ∈ unparsable w) then (Raise JSONDecodeError, w)
      else (Raise (FileNotFoundError ("articles/" +:+ fileid +:+ ".json")), w)
  end.
Definition read_map_file : M (list source_conf) := λ w,
  match map_file w with
  | Some l => (Ret l, w)
  | None => (Raise (FileNotFoundError "sample_mapping.json"), w)
  end.

Definition write_urls (id : string) (l : list string) : M unit :=
  modify (set_urls_dir <[id := l]>).
Definition write_new_urls (id : string) (l : list string) : M unit :=
  modify (set_new_urls_dir <[id := l]>).
Definition write_article (fileid : string) (d : gmap string json) : M unit :=
  modify (set_articles_dir <[fileid := d]>).
Definition write_map_file (l : list source_conf) : M unit :=
  modify (set_map_file (Some l)).

(** The set of URLs a file holds, as the code reads it with [set(json.load(f))];
    a missing file holds no URL. *)
Definition url_set (dir : gmap string (list string)) (id : string) : gset string :=
  list_to_set (default [] (dir !! id)).

(** [f"{id}_{str(i).zfill(4)}"], the composite key of an article. *)
Definition fileid (id : string) (i : Z) : string :=
  id +:+ "_" +:+ zfill (str i) 4.

(** [enumerate(l, start)] *)
Fixpoint enumerate {A} (l : list A) (start : Z) : list (Z * A) :=
  match l with
  | [] => []
  | x :: l' => (start, x) :: enumerate l' (start + 1)
  end.

(** [range(a, b)] *)
Definition range (a b : Z) : list Z := seqZ a (b - a).

(** ** url_extractor.py *)

Module RssHandler.
Section with_set_order.
(** [list(s)] and iteration over a Python set: the order is not specified. *)
Variable set_list : gset string → list string.

Record t := Handler {
  rss_url : string;
  id : string;
  article_cnt : json;
  new_urls : list string;
}.

(** [RssHandler.__init__] *)
Definition init (url_conf : source_conf) : M t :=
  rss ← subscript "rss" (conf_rss url_conf);
  i ← subscript "id" (conf_id url_conf);
  let cnt := get_article_cnt url_conf in
  ex ← urls_exists i;
  (if ex : bool then mret tt else write_urls i []);;
  ex' ← new_urls_exists i;
  (if ex' : bool then mret tt else write_new_urls i []);;
  mret (Handler rss i cnt []).

(** [RssHandler.extract_urls]. The arguments of [requests.get] are
    evaluated before the call, and the last of them is the name [proxies],
    which nothing in the module binds (no assignment, import or parameter):
    Python raises [NameError] there. The [try] catches
    [requests.exceptions.RequestException] only, so the exception leaves
    the function on every call; the parsing loop below it is never
    reached. *)
Definition extract_urls (self : t) : M (list string) :=
  raise (NameError "proxies").

(** [RssHandler.update_file] *)
Definition update_file (self : t) : M t :=
  urls ← extract_urls self;
  match urls with
  | [] => mret self
  | _ =>
      existing_urls ← read_urls (id self);
      let new := sorted (set_list (list_to_set urls ∖ list_to_set existing_urls)) in
      let all_urls := set_list (list_to_set urls ∪ list_to_set existing_urls) in
      write_new_urls (id self) new;;
      write_urls (id self) all_urls;;
      mret (Handler (rss_url self) (id self) (article_cnt self) new)
  end.

(** One reconcile of the runner: a fresh handler, then [update_file]. *)
Definition reconcile (url_conf : source_conf) : M t :=
  h ← init url_conf;
  update_file h.

End with_set_order.
End RssHandler.

(** ** xpathsraper.py *)

Module CustomScraper.
Section with_set_order.
Variable set_list : gset string → list string.

Record t := Scraper {
  id : string;
  xpath : string;
  url : string;
}.

(** [CustomScraper.__init__] *)
Definition init (config : source_conf) : M t :=
  i ← subscript "id" (conf_id config);
  x ← subscript "xpath" (conf_xpath config);
  u ← subscript "url" (conf_url config);
  mret (Scraper i x u).

(** [CustomScraper.process]; [fetched] is what [self.fetch_urls(..)] returned. *)
Definition process (self : t) (fetched : list string) : M unit :=
  ex ← urls_exists (id self);
  (if ex : bool then mret tt else write_urls (id self) []);;
  old ← read_urls (id self);
  let old_urls : gset string := list_to_set old in
  let cur_urls : gset string := list_to_set fetched in
  let new_urls := cur_urls ∖ old_urls in
  write_new_urls (id self) (set_list new_urls).

(** One reconcile of the runner for an xpath source. *)
Definition reconcile (config : source_conf) (fetched : list string) : M unit :=
  sc ← init config;
  process sc fetched.

End with_set_order.
End CustomScraper.

(** ** article_extractor.py *)

Module ArticleExtractor.

Record t := Extractor {
  date : string;
  id : string;
  article_cnt : Z;
  new_urls : list string;
  map : gmap string Z;
}.

(** What the crawler hands back for one URL. *)
Record crawl_result := CrawlResult {
  result_url : string;
  result_markdown : option string;
  result_html : option string;
  result_success : bool;
}.

(** [ArticleExtractor.map_urls] *)
Definition map_urls (self : t) : t :=
  let m := foldl (λ m '(i, url), <[url := article_cnt self + i]> m)
                 (map self) (enumerate (new_urls self) 1) in
  Extractor (date self) (id self)
            (article_cnt self + Z.of_nat (length (new_urls self)))
            (new_urls self) m.

(** [ArticleExtractor.__init__]; [today] is [time.strftime("%Y-%m-%d")].
    The counter is [url_conf.get("article_cnt", 0)]; its first use is the
    arithmetic of [map_urls] ([self.article_cnt + i] in the loop, or
    [self.article_cnt += len(..)] after an empty one), which raises
    [TypeError] on a value that is no number, before the map holds
    anything. *)
Definition init (today : string) (url_conf : source_conf) : M t :=
  i ← subscript "id" (conf_id url_conf);
  ex ← new_urls_exists i;
  urls ← (if ex : bool then read_new_urls i else mret []);
  cnt ← as_int (get_article_cnt url_conf);
  mret (map_urls (Extractor today i cnt urls ∅)).

(** [ArticleExtractor.save_json] *)
Definition save_json (self : t) (url html file_id : string) : M unit :=
  let data : gmap string json :=
    <["url" := JStr url]> (<["html" := JStr html]> (<["path" := JStr file_id]>
      (<["title" := JStr ""]> (<["date" := JStr (date self)]> ∅)))) in
  write_article file_id data.

(** [a or b or ""] on optional strings. *)
Definition or_str (a : option string) (b : string) : string :=
  match a with
  | Some s => if String.eqb s "" then b else s
  | None => b
  end.

(** [ArticleExtractor.process_result] *)
Definition process_result (self : t) (result : crawl_result) : M unit :=
  try_except
    (let url := result_url result in
     let html := or_str (result_markdown result) (or_str (result_html result) "") in
     i ← (match map self !! url with
          | Some i => mret i
          | None => raise (KeyError url)
          end);
     save_json self url html (fileid (id self) i))
    (λ _, mret tt).

(** The loop of [ArticleExtractor.extract_articles] over the results of
    [crawler.arun_many(urls=self.new_urls)]. *)
Fixpoint extract_articles (self : t) (results : list crawl_result) : M unit :=
  match results with
  | [] => mret tt
  | r :: rs =>
      (if result_success r then process_result self r else mret tt);;
      extract_articles self rs
  end.

End ArticleExtractor.

(** ** summariser.py *)

(** [extract_between_backticks] *)
Definition extract_between_backticks (text : string) : string :=
  let start := find text "```" 0 in
  if negb (start =? -1) then
    let end_ := find text "```" (start + 3) in
    if negb (end_ =? -1) then strip (slice text (start + 3) end_)
    else ""
  else "".

Module Summariser.
Section with_externals.
(** [llm.invoke(messages).content] for a given user message, and
    [json.loads]; both live outside the repository. *)
Variable llm_invoke : string → exn + string.
Variable json_loads : string → option json.

Record t := Summariser {
  id : string;
  article_cnt : Z;
  new_filepaths : list string;
  prompt_template : string;
}.

(** [Summariser.__init__]; [template] is the content of the prompt file.
    The counter enters arithmetic in [range(self.article_cnt + 1, ..)],
    after the DeltaSet file has been created and read: a value that is no
    number raises [TypeError] there. *)
Definition init (template : string) (url_conf : source_conf) : M t :=
  i ← subscript "id" (conf_id url_conf);
  ex ← new_urls_exists i;
  (if ex : bool then mret tt else write_new_urls i []);;
  new_article_urls ← read_new_urls i;
  cnt ← as_int (get_article_cnt url_conf);
  let paths := (λ k, fileid i k) <$>
                 range (cnt + 1) (cnt + Z.of_nat (length new_article_urls) + 1) in
  mret (Summariser i cnt paths template).

(** [Summariser.generate_summary_message] *)
Definition generate_summary_message (self : t) (article_text : string) : string :=
  replace (prompt_template self) "(article)" article_text.

Definition loads (s : string) : M json :=
  match json_loads s with
  | Some v => mret v
  | None => raise JSONDecodeError
  end.

(** [Summariser.llm_call] *)
Definition llm_call (self : t) (article_text : string) : M json :=
  let user_message := generate_summary_message self article_text in
  modify (log_llm user_message);;
  chat_response ← (match llm_invoke user_message with
                   | inr r => mret r
                   | inl e => raise e
                   end);
  let s1 := extract_between_backticks chat_response in
  c ← (match item s1 0 with inr c => mret c | inl e => raise e end);
  if Ascii.eqb c "j" then loads (slice_from s1 4) else loads s1.

(** Lookup in a parsed JSON object; of two members with one name
    [json.loads] keeps the last. *)
Definition obj_lookup (key : string) (o : list (string * json)) : option json :=
  foldl (λ acc kv, if String.eqb (fst kv) key then Some (snd kv) else acc) None o.

(** [result.get(key, dflt)]: only a JSON object has [get]. *)
Definition result_get (result : json) (key : string) (dflt : json) : M json :=
  match result with
  | JObj o => mret (default dflt (obj_lookup key o))
  | _ => raise AttributeError
  end.

(** [Summariser.process_article]; [filename] is the stem of the record's
    file under [articles/]. The first [try] has [except FileNotFoundError]
    only: the [JSONDecodeError] of a file that does not parse propagates.
    A [html] value that is no string has no [strip], and that
    [AttributeError] is raised outside the second [try]. *)
Definition process_article (self : t) (filename : string) : M unit :=
  found ← try_except_not_found (d ← read_article filename; mret (Some d))
                               (mret None);
  match found with
  | None => mret tt
  | Some data =>
      match default (JStr "") (data !! "html") with
      | JStr html_text =>
          if String.eqb (strip html_text) "" then mret tt
          else if truthy (default (JStr "") (data !! "summary")) then mret tt
          else
            try_except
              (result ← llm_call self html_text;
               summary ← result_get result "summary" (JStr "");
               title ← result_get result "title" (JStr "");
               keywords ← result_get result "keywords" (JArr []);
               let data1 := <["summary" := summary]> data in
               let data2 := <["title" := title]> data1 in
               let data3 := <["keywords" := keywords]> data2 in
               let data4 := delete "html" data3 in
               write_article filename data4)
              (λ _, mret tt)
      | _ => raise AttributeError
      end
  end.

End with_externals.
End Summariser.

(** ** dbmanager.py *)

Module DBHandler.

(** A row of [articles(id INTEGER PRIMARY KEY, html TEXT, pos TEXT NOT NULL)]. *)
Record row := Row {
  row_id : Z;
  row_html : option string;
  row_pos : string;
}.

#[global] Instance row_eq_dec : EqDecision row.
Proof. solve_decision. Defined.

Record t := DBHandler {
  id : string;
  article_cnt : Z;
  new_filepaths : list string;
}.

(** [DBHandler.__init__], up to the list of article files; the counter as
    in [Summariser.__init__]. *)
Definition init (url_conf : source_conf) : M t :=
  i ← subscript "id" (conf_id url_conf);
  ex ← new_urls_exists i;
  (if ex : bool then mret tt else write_new_urls i []);;
  new_article_urls ← read_new_urls i;
  cnt ← as_int (get_article_cnt url_conf);
  let paths := (λ k, fileid i k) <$>
                 range (cnt + 1) (cnt + Z.of_nat (length new_article_urls) + 1) in
  mret (DBHandler i cnt paths).

(** The columns of [GROUP BY pos, html]; SQL puts NULLs in one group. *)
Definition group_key (r : row) : string * option string :=
  (row_pos r, row_html r).

(** [MIN(id)] over a group. *)
Definition min_id (first : Z) (rest : list Z) : Z := foldr Z.min first rest.

(** The ids of the group with key [k], and [MIN(id)] of that group. *)
Definition group_ids (articles : list row) (k : string * option string) : list Z :=
  row_id <$> filter (λ r, group_key r = k) articles.

Definition group_min (articles : list row) (k : string * option string) : Z :=
  match group_ids articles k with
  | [] => 0
  | i :: ids => min_id i ids
  end.

(** [SELECT MIN(id) FROM articles GROUP BY pos, html] *)
Definition select_min_ids (articles : list row) : list Z :=
  group_min articles <$> remove_dups (group_key <$> articles).

(** [DELETE FROM articles WHERE id NOT IN (SELECT MIN(id) ...)] of
    [DBHandler.delete_duplicates]: the rows that stay. *)
Definition delete_duplicates (articles : list row) : list row :=
  filter (λ r, row_id r ∈ select_min_ids articles) articles.

End DBHandler.

Section merge.
Variable set_list : gset string → list string.

(** The [for entry in map_data: ... break] loop of [merge_files]:
    [entry.get("article_cnt", 0) + new_url_cnt] raises [TypeError] when the
    counter of the entry is no number. *)
Fixpoint bump_first (id : string) (new_url_cnt : Z) (map_data : list source_conf)
    : exn + list source_conf :=
  match map_data with
  | [] => inr []
  | entry :: rest =>
      if decide (conf_id entry = Some id) then
        match int_value (get_article_cnt entry) with
        | Some k =>
            inr (SourceConf (conf_id entry) (Some (JNum (k + new_url_cnt)))
                            (conf_type entry) (conf_rss entry) (conf_url entry)
                            (conf_xpath entry) :: rest)
        | None => inl TypeError
        end
      else
        match bump_first id new_url_cnt rest with
        | inr rest' => inr (entry :: rest')
        | inl e => inl e
        end
  end.

(** [merge_files(di, data_dir, map_path)] *)
Definition merge_files (di : source_conf) : M unit :=
  id ← subscript "id" (conf_id di);
  ex ← new_urls_exists id;
  (if ex : bool then mret tt else write_new_urls id []);;
  new_urls ← read_new_urls id;
  ex' ← urls_exists id;
  (if ex' : bool then mret tt else write_urls id []);;
  old_urls ← read_urls id;
  let all_urls := set_list (list_to_set new_urls ∪ list_to_set old_urls) in
  write_new_urls id all_urls;;
  let new_url_cnt := Z.of_nat (length new_urls) in
  if 0 <? new_url_cnt then
    map_data ← read_map_file;
    match bump_first id new_url_cnt map_data with
    | inr map_data' => write_map_file map_data'
    | inl e => raise e
    end
  else mret tt.

End merge.

(** The [article_cnt] the pipeline reads for a source: the integer of
    [conf.get("article_cnt", 0)] on the entry of the config list with this id
    (ids are unique keys, the first such entry is taken); [None] when the
    list has no such entry or its counter is no number. *)
Fixpoint lookup_cnt (id : string) (map_data : list source_conf) : option Z :=
  match map_data with
  | [] => None
  | entry :: rest =>
      if decide (conf_id entry = Some id)
      then counter entry
      else lookup_cnt id rest
  end.

(** ** More of xpathsraper.py, and primitives for the callers *)

(** [sub in s] and [s.lower()] (on code points below 256). *)
Definition str_in (sub s : string) : bool :=
  match String.index 0 sub s with Some _ => true | None => false end.

Definition lower_char (c : ascii) : ascii :=
  let n := nat_of_ascii c in
  if ((65 <=? n) && (n <=? 90))%nat
     || ((192 <=? n) && (n <=? 222) && negb (n =? 215))%nat
  then ascii_of_nat (n + 32) else c.

Fixpoint lower (s : string) : string :=
  match s with
  | EmptyString => EmptyString
  | String c s' => String (lower_char c) (lower s')
  end.

(** What [CustomScraper.fetch_urls] sees of one crawl result: whether
    [result.markdown] is truthy, and the [href] of every element that the
    xpath selects ([None] for an element without [href]). *)
Record page_result := PageResult {
  page_markdown : bool;
  page_anchors : list (option string);
}.

Section fetch.
(** [urllib.parse.urljoin] *)
Variable urljoin : string → string → string.

(** The [for a in a_tags] loop. *)
Definition anchor_urls (url : string) (a_tags : list (option string)) : list string :=
  foldl (λ urls a,
           match a with
           | Some href => if String.eqb href "" then urls
                          else urls ++ [urljoin url href]
           | None => urls
           end) [] a_tags.

(** The loop of [CustomScraper.fetch_urls] over the crawl results, [urls]
    being the list collected so far. *)
Fixpoint fetch_urls_loop (url : string) (results : list page_result)
    (urls : list string) : list string :=
  match results with
  | [] => urls
  | result :: rest =>
      if page_markdown result then
        match page_anchors result with
        | [] => []
        | a_tags => fetch_urls_loop url rest (urls ++ anchor_urls url a_tags)
        end
      else fetch_urls_loop url rest urls
  end.

(** [CustomScraper.fetch_urls] *)
Definition fetch_urls (url : string) (results : list page_result) : list string :=
  fetch_urls_loop url results [].

End fetch.

(** ** The tables of dbmanager.py and the query of fetch.py *)

Module Tables.

(** The five tables, with the [sqlite_sequence] counters of the three
    AUTOINCREMENT keys. Rows are kept in insertion order. *)
Record t := DB {
  articles : list DBHandler.row;
  articles_seq : Z;
  tags : list (Z * string);
  tags_seq : Z;
  subtags : list (Z * string);
  subtags_seq : Z;
  article_tags : list (Z * Z);
  article_subtags : list (Z * Z);
}.

(** A fresh database after [create_tables]. *)
Definition empty : t := DB [] 0 [] 0 [] 0 [] [].

(** The rowid an AUTOINCREMENT key gives to a new row: one more than the
    largest that ever existed in the table. *)
Definition next_rowid (seq : Z) (ids : list Z) : Z := foldr Z.max seq ids + 1.

(** [SELECT id FROM .. WHERE name = ?] followed by [fetchone()]. *)
Definition select_id (name : string) (rows : list (Z * string)) : option Z :=
  fst <$> head (filter (λ r, snd r = name) rows).

(** [DBHandler.get_or_create_tag] *)
Definition get_or_create_tag (name : string) (d : t) : Z * t :=
  match select_id name (tags d) with
  | Some i => (i, d)
  | None =>
      let i := next_rowid (tags_seq d) (fst <$> tags d) in
      (i, DB (articles d) (articles_seq d) (tags d ++ [(i, name)]) i
             (subtags d) (subtags_seq d) (article_tags d) (article_subtags d))
  end.

(** [DBHandler.get_or_create_subtag] *)
Definition get_or_create_subtag (name : string) (d : t) : Z * t :=
  match select_id name (subtags d) with
  | Some i => (i, d)
  | None =>
      let i := next_rowid (subtags_seq d) (fst <$> subtags d) in
      (i, DB (articles d) (articles_seq d) (tags d) (tags_seq d)
             (subtags d ++ [(i, name)]) i (article_tags d) (article_subtags d))
  end.

(** [INSERT OR IGNORE] into a table whose primary key is the whole row. *)
Definition insert_or_ignore (pair : Z * Z) (rows : list (Z * Z)) : list (Z * Z) :=
  if decide (pair ∈ rows) then rows else rows ++ [pair].

(** The [for tag in tags] and [for subtag in subtags] loops of
    [insert_article]. *)
Definition link_tag (article_id : Z) (d : t) (tag : string) : t :=
  let '(tag_id, d') := get_or_create_tag tag d in
  DB (articles d') (articles_seq d') (tags d') (tags_seq d')
     (subtags d') (subtags_seq d')
     (insert_or_ignore (article_id, tag_id) (article_tags d'))
     (article_subtags d').

Definition link_subtag (article_id : Z) (d : t) (subtag : string) : t :=
  let '(subtag_id, d') := get_or_create_subtag subtag d in
  DB (articles d') (articles_seq d') (tags d') (tags_seq d')
     (subtags d') (subtags_seq d')
     (article_tags d')
     (insert_or_ignore (article_id, subtag_id) (article_subtags d')).

(** [DBHandler.insert_article] *)
Definition insert_article (html : option string) (pos : string)
    (tag_names subtag_names : list string) (d : t) : t :=
  let article_id := next_rowid (articles_seq d) (DBHandler.row_id <$> articles d) in
  let d1 := DB (articles d ++ [DBHandler.Row article_id html pos]) article_id
               (tags d) (tags_seq d) (subtags d) (subtags_seq d)
               (article_tags d) (article_subtags d) in
  let d2 := foldl (link_tag article_id) d1 tag_names in
  foldl (link_subtag article_id) d2 subtag_names.

(** [DBHandler.delete_duplicates] on the database. *)
Definition delete_duplicates (d : t) : t :=
  DB (DBHandler.delete_duplicates (articles d)) (articles_seq d)
     (tags d) (tags_seq d) (subtags d) (subtags_seq d)
     (article_tags d) (article_subtags d).

(** [a.id IN (SELECT at.article_id FROM article_tags at JOIN tags t
    ON at.tag_id = t.id WHERE t.name = ?)] *)
Definition joined (links : list (Z * Z)) (names : list (Z * string))
    (article_id : Z) (name : string) : bool :=
  existsb (λ link,
             (fst link =? article_id)
             && existsb (λ row, (fst row =? snd link) && String.eqb (snd row) name)
                        names)
          links.

Definition has_tag (d : t) (article_id : Z) (name : string) : bool :=
  joined (article_tags d) (tags d) article_id name.

(** The same on [article_subtags] and [subtags], for [st.name IN (..)]. *)
Definition has_subtag (d : t) (article_id : Z) (name : string) : bool :=
  joined (article_subtags d) (subtags d) article_id name.

(** [get_pos_by_tag_and_subtag] of fetch.py; [None] and the empty list
    are both falsy, so each argument is a list. *)
Definition get_pos_by_tag_and_subtag (tag_names subtag_names : list string)
    (d : t) : list string :=
  match tag_names, subtag_names with
  | [], [] => []
  | _, _ =>
      remove_dups
        (DBHandler.row_pos <$>
           filter (λ a,
                     forallb (has_tag d (DBHandler.row_id a)) tag_names = true
                     ∧ (subtag_names = []
                        ∨ existsb (has_subtag d (DBHandler.row_id a))
                            subtag_names = true))
                  (articles d))
  end.

End Tables.

(** ** tagger.py *)

Module Tagger.

(** The tag taxonomy file: each of the two dictionaries maps a tag to its
    keywords, in the order of the file. *)
Record taxonomy := Taxonomy {
  keywords_proper : option (list (string * list string));
  keywords_common : option (list (string * list string));
}.

Record t := Tagger {
  id : string;
  article_cnt : Z;
  new_filepaths : list string;
  keys_proper : list (string * list string);
  keys_common : list (string * list string);
}.

(** [Tagger.__init__]; [tags_file] is the content of the taxonomy file,
    [None] when it does not exist; the counter as in
    [Summariser.__init__]. *)
Definition init (tags_file : option taxonomy) (url_conf : source_conf) : M t :=
  i ← subscript "id" (conf_id url_conf);
  ex ← new_urls_exists i;
  (if ex : bool then mret tt else write_new_urls i []);;
  new_article_urls ← read_new_urls i;
  cnt ← as_int (get_article_cnt url_conf);
  let paths := (λ k, fileid i k) <$>
                 range (cnt + 1) (cnt + Z.of_nat (length new_article_urls) + 1) in
  tags ← (match tags_file with
          | Some tags => mret tags
          | None => raise (FileNotFoundError "config/tags.json")
          end);
  proper ← subscript "keywords_proper" (keywords_proper tags);
  common ← subscript "keywords_common" (keywords_common tags);
  mret (Tagger i cnt paths proper common).

Section with_externals.
(** [similar text kw]: the cosine score of the embeddings of [text] and
    [kw] reaches the threshold 0.3 of the call in [process_single_file]. *)
Variable similar : string → string → bool.
(** [list(s)] on a set. *)
Variable set_list : gset string → list string.
(** [str(v)] on a list or a dictionary. *)
Variable str_container : json → string.

(** [Tagger.bert_embedding_tags(article_text, keywords, threshold=0.3)] *)
Definition bert_embedding_tags (article_text : string) (keywords : list string)
    : list string :=
  filter (λ kw, similar article_text kw = true) keywords.

(** [str(v)] on what a record can hold. *)
Definition str_json (v : json) : string :=
  match v with
  | JStr s => s
  | JNull => "None"
  | JBool true => "True"
  | JBool false => "False"
  | JNum z => str z
  | _ => str_container v
  end.

(** The first loop of [process_single_file]: case-insensitive substring
    match of the proper keywords. *)
Definition exact_pass (proper : list (string * list string)) (summary : string)
    (acc : gset string * gset string) : gset string * gset string :=
  foldl (λ acc '(tag, keywords),
           foldl (λ '(tags, subtags) word,
                    if str_in (lower word) (lower summary)
                    then ({[tag]} ∪ tags, {[word]} ∪ subtags)
                    else (tags, subtags))
                 acc keywords)
        acc proper.

(** The second loop: semantic match of the common keywords. *)
Definition semantic_pass (common : list (string * list string)) (summary : string)
    (acc : gset string * gset string) : gset string * gset string :=
  foldl (λ '(tags, subtags) '(tag, keywords),
           match bert_embedding_tags summary keywords with
           | [] => (tags, subtags)
           | matched_keywords =>
               ({[tag]} ∪ tags, list_to_set matched_keywords ∪ subtags)
           end)
        acc common.

(** [Tagger.process_single_file] *)
Definition process_single_file (self : t) (file_path : string) : M unit :=
  found ← try_except (d ← read_article file_path; mret (Some d))
                     (λ _, mret None);
  match found with
  | None => mret tt
  | Some data =>
      let summary := str_json (default (JStr "") (data !! "summary")) in
      if String.eqb summary "" then mret tt
      else
        let '(tags, subtags) :=
          semantic_pass (keys_common self) summary
            (exact_pass (keys_proper self) summary (∅, ∅)) in
        let data1 := <["tags" := JArr (JStr <$> set_list tags)]> data in
        let data2 := <["subtags" := JArr (JStr <$> set_list subtags)]> data1 in
        write_article file_path data2
  end.

(** The loop of [Tagger.tag_files]. *)
Fixpoint tag_files_loop (self : t) (json_files : list string) : M unit :=
  match json_files with
  | [] => mret tt
  | filename :: rest =>
      process_single_file self filename;;
      tag_files_loop self rest
  end.

(** [Tagger.tag_files] *)
Definition tag_files (self : t) : M unit :=
  match new_filepaths self with
  | [] => mret tt
  | json_files => tag_files_loop self json_files
  end.

End with_externals.
End Tagger.

(** The index part of a composite key in the specification's words: four
    decimal digits, zero-padded ([{index:04d}] for an index below 10000). *)
Definition digit (d : Z) : ascii := ascii_of_nat (48 + Z.to_nat (d `mod` 10)).

Definition four_digits (i : Z) : string :=
  String (digit (i `div` 1000)) (String (digit (i `div` 100))
    (String (digit (i `div` 10)) (String (digit i) EmptyString))).

(** The triple-backtick markers in the specification's words: [sub] occurs
    in [s] at position [p]; [m] is the first marker at or after [start]. *)
Definition occurs_at (sub s : string) (p : nat) : Prop :=
  String.substring p (String.length sub) s = sub.

Definition marker_from (text : string) (start m : nat) : Prop :=
  (start ≤ m)%nat
  ∧ occurs_at "```" text m
  ∧ ∀ p, (start ≤ p < m)%nat → ¬ occurs_at "```" text p.

(** A string without its first [n] characters. *)
Fixpoint drop_chars (n : nat) (s : string) : string :=
  match n, s with
  | O, _ => s
  | S n', String _ s' => drop_chars n' s'
  | S _, EmptyString => EmptyString
  end.

(** Reading an index back from its padded form, and the strings in which
    a character (the separator of a composite key, the opening of the
    prompt's placeholder) does not occur. *)
Definition parse_index (s : string) : option Z :=
  Z.of_int <$> NilEmpty.int_of_string s.

Fixpoint lacks_char (x : ascii) (s : string) : bool :=
  match s with
  | EmptyString => true
  | String c s' => negb (Ascii.eqb c x) && lacks_char x s'
  end.

(** ** Worlds of the specification's scenarios *)

Definition techcrunch_conf : source_conf :=
  SourceConf (Some "techcrunch") (Some (JNum 7)) (Some "rss")
             (Some "https://techcrunch.com/feed/") None None.

(** The entry of "techcrunch" with [article_cnt] present and [null]. *)
Definition null_cnt_conf : source_conf :=
  SourceConf (Some "techcrunch") (Some JNull) (Some "rss")
             (Some "https://techcrunch.com/feed/") None None.

Definition inc42_conf : source_conf :=
  SourceConf (Some "inc42") None (Some "xpath") None
             (Some "https://inc42.com/buzz/") (Some "//h2/a").

(** Cumulative set [{a.com/1, a.com/2}] for "techcrunch", nothing yet for
    "inc42". *)
Definition scenario_world : world :=
  World {[ "techcrunch" := ["a.com/1"; "a.com/2"] ]} ∅ ∅
        (Some [techcrunch_conf; inc42_conf]) [] ∅.

(** The world after the reconcile of the scenario: delta
    [a.com/3, a.com/4], counter at 7. *)
Definition scenario_delta_world : world :=
  World {[ "techcrunch" := ["a.com/1"; "a.com/2"; "a.com/3"; "a.com/4"] ]}
        {[ "techcrunch" := ["a.com/3"; "a.com/4"] ]} ∅
        (Some [techcrunch_conf; inc42_conf]) [] ∅.


(** The world of the next run: the scenario's delta has been committed. *)
Definition committed_world : world :=
  (merge_files elements techcrunch_conf scenario_delta_world).2.

Definition techcrunch_conf_next : source_conf :=
  SourceConf (Some "techcrunch") (Some (JNum 9)) (Some "rss")
             (Some "https://techcrunch.com/feed/") None None.

(** A record that the Summarize stage has already been through, one that
    is fetched but not summarised, and a summariser for them. *)
Definition summarised_record : gmap string json :=
  <["url" := JStr "a.com/3"]> (<["path" := JStr "techcrunch_0008"]>
    (<["title" := JStr "Funding round"]> (<["date" := JStr "2025-01-01"]>
      (<["summary" := JStr "A startup raised a round."]>
        (<["keywords" := JArr [JStr "funding"]]> ∅))))).

Definition fetched_record : gmap string json :=
  <["url" := JStr "a.com/4"]> (<["html" := JStr "Article body"]>
    (<["path" := JStr "techcrunch_0009"]> (<["title" := JStr ""]>
      (<["date" := JStr "2025-01-01"]> ∅)))).

Definition records_world : world :=
  World ∅ ∅ {[ "techcrunch_0008" := summarised_record;
               "techcrunch_0009" := fetched_record ]} None [] ∅.

Definition scenario_summariser : Summariser.t :=
  Summariser.Summariser "techcrunch" 7 ["techcrunch_0008"; "techcrunch_0009"]
    "Summarise: (article)".

(** A summariser whose template has parentheses besides the placeholder. *)
Definition json_prompt_summariser : Summariser.t :=
  Summariser.Summariser "techcrunch" 7 []
    "Return JSON (title, summary) for: (article)".

(** An LLM that answers without any fenced block. *)
Definition unfenced_llm (prompt : string) : exn + string :=
  inr "I cannot summarise this.".

(** An [articles] table in which two runs inserted the same records. *)
Definition duplicated_table : list DBHandler.row :=
  [ DBHandler.Row 1 (Some "a.com/3") "techcrunch_0008";
    DBHandler.Row 2 (Some "a.com/4") "techcrunch_0009";
    DBHandler.Row 3 (Some "a.com/3") "techcrunch_0008";
    DBHandler.Row 4 None "techcrunch_0010";
    DBHandler.Row 5 None "techcrunch_0010";
    DBHandler.Row 6 (Some "a.com/3") "techcrunch_0011" ].

(** The record files of a run in the order the stages list them: the keys
    of the indices [k+1 .. k+n]. *)
Definition stage_paths (sid : string) (k : Z) (n : nat) : list string :=
  (λ i, fileid sid i) <$> range (k + 1) (k + Z.of_nat n + 1).

(** The constraints of the schema that the code relies on: the primary keys
    of [articles], [tags] and [subtags], the UNIQUE names, and the composite
    primary keys of the two join tables. *)
Definition constraints (d : Tables.t) : Prop :=
  NoDup (DBHandler.row_id <$> Tables.articles d)
  ∧ NoDup (fst <$> Tables.tags d) ∧ NoDup (snd <$> Tables.tags d)
  ∧ NoDup (fst <$> Tables.subtags d) ∧ NoDup (snd <$> Tables.subtags d)
  ∧ NoDup (Tables.article_tags d) ∧ NoDup (Tables.article_subtags d).

(** An extractor of the run after the scenario's commit, with "a.com/3"
    in its delta again, and a delta file that lists a URL twice. *)
Definition refetch_extractor : ArticleExtractor.t :=
  ArticleExtractor.Extractor "2025-01-02" "techcrunch" 8 ["a.com/3"]
    {[ "a.com/3" := 8 ]}.

Definition repeated_delta_world : world :=
  World ∅ {[ "techcrunch" := ["a.com/3"; "a.com/4"; "a.com/3"] ]} ∅ None [] ∅.

(** An LLM that answers with a fenced block, and a parser that finds an
    object with a summary and a title in it. *)
Definition fenced_llm (prompt : string) : exn + string :=
  inr "Here it is: ```json {} ``` Done.".

Definition object_loads (s : string) : option json :=
  Some (JObj [("summary", JStr "A startup raised a round."); ("title", JStr "Round")]).

(** The delta of the scenario with no source-config file on disk. *)
Definition no_config_world : world :=
  World {[ "techcrunch" := ["a.com/1"; "a.com/2"] ]}
        {[ "techcrunch" := ["a.com/3"; "a.com/4"] ]} ∅ None [] ∅.

(** The tagger of the specification's scenario: taxonomy
    [{"AI": ["openai", "gpt"]}], no common keywords, and its record. *)
Definition scenario_tagger : Tagger.t :=
  Tagger.Tagger "techcrunch" 7 ["techcrunch_0008"]
    [("AI", ["openai"; "gpt"])] [].

Definition tagging_world : world :=
  World ∅ ∅
    {[ "techcrunch_0008" :=
         <["url" := JStr "a.com/3"]>
           (<["summary" := JStr "OpenAI released a new model"]> ∅) ]}
    None [] ∅.

(** * Properties *)

(** Unfolds the monad of computations. *)
Ltac run :=
  repeat (unfold mbind, M_bind, mret, M_ret, raise, gets, modify, try_except,
            try_except_not_found, as_int,
            subscript, urls_exists, new_urls_exists, read_urls, read_new_urls,
            read_article, read_map_file, write_urls, write_new_urls,
            write_article, write_map_file; simpl).

(** ** The primitives on concrete inputs *)

Example find_example : find "ab```cd```ef" "```" 0 = 2.
Proof. reflexivity. Qed.

Example find_absent_example : find "ab``cd" "```" 0 = -1.
Proof. reflexivity. Qed.

Example slice_example : slice "ab```cd```ef" 5 7 = "cd".
Proof. reflexivity. Qed.

Example strip_example : strip "  a b  " = "a b".
Proof. reflexivity. Qed.

Example zfill_example : zfill (str 8) 4 = "0008".
Proof. reflexivity. Qed.

Example zfill_wide_example : zfill (str 12345) 4 = "12345".
Proof. reflexivity. Qed.

Example zfill_sign_example : zfill (str (-5)) 4 = "-005".
Proof. reflexivity. Qed.

Example sorted_example :
  sorted ["a.com/4"; "a.com/10"; "a.com/3"] = ["a.com/10"; "a.com/3"; "a.com/4"].
Proof. vm_compute. reflexivity. Qed.

Example replace_example :
  replace "Summarise: (article)" "(article)" "Article body"
  = "Summarise: Article body".
Proof. vm_compute. reflexivity. Qed.

Example fileid_example : fileid "techcrunch" 8 = "techcrunch_0008".
Proof. reflexivity. Qed.

Example range_example : range 8 10 = [8; 9].
Proof. reflexivity. Qed.

Example enumerate_example :
  enumerate ["a.com/3"; "a.com/4"] 1 = [(1, "a.com/3"); (2, "a.com/4")].
Proof. reflexivity. Qed.

Example extract_example :
  extract_between_backticks "Here you go: ```json {} ``` bye" = "json {}".
Proof. reflexivity. Qed.

Example extract_one_marker_example :
  extract_between_backticks "Here you go: ```json {}" = "".
Proof. reflexivity. Qed.

Example select_min_ids_example :
  DBHandler.select_min_ids duplicated_table = [2; 1; 4; 6].
Proof. vm_compute. reflexivity. Qed.

Example bump_first_example :
  ∃ md, bump_first "techcrunch" 2 [techcrunch_conf; inc42_conf] = inr md
        ∧ lookup_cnt "techcrunch" md = Some 9.
Proof. eexists. split; reflexivity. Qed.

Example int_value_example :
  int_value (JNum 7) = Some 7 ∧ int_value (JBool true) = Some 1
  ∧ int_value JNull = None ∧ int_value (JStr "7") = None.
Proof. by split_and!. Qed.

(** ** Sets of URLs and their lists *)

Lemma str_le_total : Total str_le.
Proof. intros a b. unfold str_le. apply String.leb_total. Qed.

Lemma sorted_perm (l : list string) : sorted l ≡ₚ l.
Proof. apply merge_sort_Permutation. Qed.

Lemma sorted_Sorted (l : list string) : Sorted str_le (sorted l).
Proof. apply Sorted_merge_sort, str_le_total. Qed.

Lemma sorted_set (l : list string) :
  list_to_set (C := gset string) (sorted l) = list_to_set l.
Proof.
  apply set_eq. intros x. rewrite !elem_of_list_to_set.
  by rewrite (sorted_perm l).
Qed.

Lemma url_set_lookup dir id l :
  dir !! id = Some l → url_set dir id = list_to_set l.
Proof. intros H. unfold url_set. by rewrite H. Qed.

Lemma url_set_insert_eq dir id l :
  url_set (<[id := l]> dir) id = list_to_set l.
Proof. unfold url_set. by rewrite lookup_insert_eq. Qed.

Lemma url_set_insert_ne dir id id' l :
  id ≠ id' → url_set (<[id := l]> dir) id' = url_set dir id'.
Proof. intros H. unfold url_set. by rewrite lookup_insert_ne. Qed.

Lemma url_set_insert_nil dir id x :
  dir !! id = None → url_set (<[id := []]> dir) x = url_set dir x.
Proof.
  intros H. unfold url_set. destruct (decide (id = x)) as [->|Hne].
  - by rewrite lookup_insert_eq, H.
  - by rewrite lookup_insert_ne.
Qed.

Lemma difference_disjoint_r (X U : gset string) : X ∖ U ## U.
Proof.
  apply elem_of_disjoint. intros x Hx HU.
  apply elem_of_difference in Hx. tauto.
Qed.

Section set_order.
Variable set_list : gset string → list string.
Hypothesis set_list_perm : ∀ s, set_list s ≡ₚ elements s.

Lemma set_list_set (s : gset string) : list_to_set (set_list s) = s.
Proof using set_list_perm.
  apply set_eq. intros x.
  by rewrite elem_of_list_to_set, (set_list_perm s), elem_of_elements.
Qed.

Lemma set_list_NoDup (s : gset string) : NoDup (set_list s).
Proof using set_list_perm. rewrite (set_list_perm s). apply NoDup_elements. Qed.

Lemma set_list_empty : set_list ∅ = [].
Proof using set_list_perm.
  apply Permutation_nil_r. by rewrite (set_list_perm ∅), elements_empty.
Qed.

Lemma sorted_set_list_NoDup (s : gset string) : NoDup (sorted (set_list s)).
Proof using set_list_perm. rewrite sorted_perm. apply set_list_NoDup. Qed.

End set_order.

(** ** Reconcile *)

Section reconcile.
Variable set_list : gset string → list string.
Hypothesis set_list_perm : ∀ s, set_list s ≡ₚ elements s.

(** A fresh handler leaves both URL files of its source in place, creating
    the missing ones empty. *)
Lemma rss_init_spec conf rss i w :
  conf_rss conf = Some rss → conf_id conf = Some i →
  ∃ w1,
    RssHandler.init conf w
      = (Ret (RssHandler.Handler rss i (get_article_cnt conf) []), w1)
    ∧ urls_dir w1 !! i = Some (default [] (urls_dir w !! i))
    ∧ new_urls_dir w1 !! i = Some (default [] (new_urls_dir w !! i))
    ∧ (∀ x, x ≠ i → urls_dir w1 !! x = urls_dir w !! x)
    ∧ (∀ x, x ≠ i → new_urls_dir w1 !! x = new_urls_dir w !! x)
    ∧ articles_dir w1 = articles_dir w
    ∧ map_file w1 = map_file w
    ∧ llm_log w1 = llm_log w.
Proof.
  intros Hrss Hid. unfold RssHandler.init. rewrite Hrss, Hid. run.
  destruct (urls_dir w !! i) as [l|] eqn:Hu;
    destruct (new_urls_dir w !! i) as [l'|] eqn:Hn; run.
  all: rewrite ?Hn; run.
  all: eexists; split; [reflexivity|]; simpl.
  all: rewrite ?lookup_insert_eq, ?Hu, ?Hn.
  all: repeat split; try done.
  all: intros x Hx; by rewrite lookup_insert_ne.
Qed.

(** [update_file] never gets past its first statement. *)
Lemma rss_update_file_raises (h : RssHandler.t) w :
  RssHandler.update_file set_list h w = (Raise (NameError "proxies"), w).
Proof. reflexivity. Qed.

(** A reconcile of an RSS source: the constructor runs, [update_file]
    raises, and the URL files hold what they held (the missing ones exist
    now, empty). *)
Lemma rss_reconcile_raises conf rss i w :
  conf_rss conf = Some rss → conf_id conf = Some i →
  ∃ w1,
    RssHandler.reconcile set_list conf w = (Raise (NameError "proxies"), w1)
    ∧ urls_dir w1 !! i = Some (default [] (urls_dir w !! i))
    ∧ new_urls_dir w1 !! i = Some (default [] (new_urls_dir w !! i))
    ∧ (∀ x, x ≠ i → urls_dir w1 !! x = urls_dir w !! x)
    ∧ (∀ x, x ≠ i → new_urls_dir w1 !! x = new_urls_dir w !! x)
    ∧ articles_dir w1 = articles_dir w
    ∧ map_file w1 = map_file w
    ∧ llm_log w1 = llm_log w.
Proof.
  intros Hrss Hid.
  destruct (rss_init_spec conf rss i w Hrss Hid) as (w1 & Hinit & H).
  exists w1. split; [|exact H].
  unfold RssHandler.reconcile, mbind, M_bind. rewrite Hinit.
  apply rss_update_file_raises.
Qed.

(** A scraper run leaves the cumulative file as it is (created empty when
    missing) and overwrites the delta file. *)
Lemma xpath_reconcile_spec conf i xp u C w :
  conf_id conf = Some i → conf_xpath conf = Some xp → conf_url conf = Some u →
  let U := url_set (urls_dir w) i in
  ∃ w',
    CustomScraper.reconcile set_list conf C w = (Ret tt, w')
    ∧ new_urls_dir w' !! i = Some (set_list (list_to_set C ∖ U))
    ∧ urls_dir w' !! i = Some (default [] (urls_dir w !! i))
    ∧ (∀ x, x ≠ i → urls_dir w' !! x = urls_dir w !! x)
    ∧ (∀ x, x ≠ i → new_urls_dir w' !! x = new_urls_dir w !! x)
    ∧ articles_dir w' = articles_dir w
    ∧ map_file w' = map_file w
    ∧ llm_log w' = llm_log w.
Proof.
  intros Hid Hx Hu U. subst U.
  unfold CustomScraper.reconcile, CustomScraper.init, CustomScraper.process.
  rewrite Hid, Hx, Hu. run. unfold url_set.
  destruct (urls_dir w !! i) as [l|] eqn:Hl; run.
  all: rewrite ?Hl, ?lookup_insert_eq; run.
  all: eexists; split; [reflexivity|]; simpl.
  all: rewrite ?lookup_insert_eq, ?Hl.
  all: repeat split; try done.
  all: intros x Hne; by rewrite ?lookup_insert_ne.
Qed.

End reconcile.

(** C1, on the two reconcile paths. For the xpath source "inc42" with an
    empty cumulative set and the candidate "a.com/1", [process] persists the
    delta and leaves the cumulative file empty: the union never reaches the
    URLSet file. For the RSS source of the scenario, cumulative
    [{a.com/1, a.com/2}], [update_file] raises [NameError] whatever the feed
    lists: no delta is computed and the cumulative file holds what it
    held. *)
Theorem reconcile_union_not_persisted :
  let x := CustomScraper.reconcile elements inc42_conf ["a.com/1"] scenario_world in
  let r := RssHandler.reconcile elements techcrunch_conf scenario_world in
  (x.1 = Ret tt
   ∧ url_set (new_urls_dir x.2) "inc42" = {[ "a.com/1" ]}
   ∧ urls_dir x.2 !! "inc42" = Some []
   ∧ url_set (urls_dir x.2) "inc42"
     ≠ list_to_set ["a.com/1"] ∪ url_set (urls_dir scenario_world) "inc42")
  ∧ (r.1 = Raise (NameError "proxies")
     ∧ new_urls_dir r.2 !! "techcrunch" = Some []
     ∧ urls_dir r.2 !! "techcrunch" = Some ["a.com/1"; "a.com/2"]).
Proof.
  intros x r. split; split_and!.
  - vm_compute; reflexivity.
  - compute_done.
  - compute_done.
  - compute_done.
  - vm_compute; reflexivity.
  - compute_done.
  - compute_done.
Qed.

(** ** Replay of a reconcile *)

(** C2, on the scenario of the specification (cumulative
    [{a.com/1, a.com/2}]). The first reconcile of the RSS source raises
    [NameError] and persists no union: the URLSet file holds the two old
    URLs. The second one raises in the same way and changes nothing. *)
Theorem rss_replay_raises :
  let r1 := RssHandler.reconcile elements techcrunch_conf scenario_world in
  let r2 := RssHandler.reconcile elements techcrunch_conf r1.2 in
  r1.1 = Raise (NameError "proxies")
  ∧ urls_dir r1.2 !! "techcrunch" = Some ["a.com/1"; "a.com/2"]
  ∧ r2.1 = Raise (NameError "proxies")
  ∧ r2.2 = r1.2.
Proof.
  intros r1 r2. split_and!.
  - vm_compute; reflexivity.
  - compute_done.
  - vm_compute; reflexivity.
  - vm_compute; reflexivity.
Qed.

(** ** Merge and commit *)

(** The loop on a list that holds an entry with a numeric counter: it
    succeeds, the counter of the source moves by [n] and the counters of the
    other sources stay. *)
Lemma bump_first_found i n md k :
  lookup_cnt i md = Some k →
  ∃ md', bump_first i n md = inr md'
         ∧ lookup_cnt i md' = Some (k + n)
         ∧ ∀ j, j ≠ i → lookup_cnt j md' = lookup_cnt j md.
Proof.
  induction md as [|e md IH]; simpl; [done|].
  destruct (decide (conf_id e = Some i)) as [He|He].
  - unfold counter. intros Hk. rewrite Hk. eexists. split; [reflexivity|].
    simpl. rewrite decide_True by done. split; [done|].
    intros j Hj. rewrite He. by rewrite !decide_False by congruence.
  - intros Hk. destruct (IH Hk) as (md' & -> & Hi & Hj).
    eexists. split; [reflexivity|]. simpl. rewrite decide_False by done.
    split; [done|]. intros j Hne.
    destruct (decide (conf_id e = Some j)); [done|]. by apply Hj.
Qed.


(** The loop fails with [TypeError] only. *)
Lemma bump_first_error i n md e :
  bump_first i n md = inl e → e = TypeError.
Proof.
  induction md as [|x md IH]; simpl; [done|].
  destruct (decide (conf_id x = Some i)).
  - destruct (int_value _); [done|]. by intros [= <-].
  - destruct (bump_first i n md); [|done]. intros [= <-]. by apply IH.
Qed.

Section commit.
Variable set_list : gset string → list string.

(** What [merge_files] leaves behind, in closed form. *)
Lemma merge_files_spec di i w :
  conf_id di = Some i →
  let new := default [] (new_urls_dir w !! i) in
  let old := default [] (urls_dir w !! i) in
  let n := Z.of_nat (length new) in
  let all := set_list (list_to_set new ∪ list_to_set old) in
  let w1 := World (<[i := old]> (urls_dir w)) (<[i := all]> (new_urls_dir w))
                  (articles_dir w) (map_file w) (llm_log w) (unparsable w) in
  merge_files set_list di w
  = if 0 <? n then
      match map_file w with
      | Some md =>
          match bump_first i n md with
          | inr md' => (Ret tt, set_map_file (Some md') w1)
          | inl e => (Raise e, w1)
          end
      | None => (Raise (FileNotFoundError "sample_mapping.json"), w1)
      end
    else (Ret tt, w1).
Proof.
  intros Hid. unfold merge_files. rewrite Hid. run.
  destruct (new_urls_dir w !! i) as [new|] eqn:Hn;
    destruct (urls_dir w !! i) as [old|] eqn:Ho; run.
  all: repeat (rewrite ?Hn, ?Ho, ?lookup_insert_eq; run).
  all: rewrite ?insert_insert_eq, ?(insert_id _ _ _ Ho).
  all: unfold set_map_file, set_new_urls_dir, set_urls_dir; simpl.
  all: rewrite ?insert_insert_eq.
  all: try (destruct (0 <? _); simpl;
            [destruct (map_file w); simpl; [destruct (bump_first _ _ _)|]|]);
    reflexivity.
Qed.

Lemma merge_files_no_id di w :
  conf_id di = None → merge_files set_list di w = (Raise (KeyError "id"), w).
Proof. intros H. unfold merge_files. by rewrite H. Qed.

Hypothesis set_list_perm : ∀ s, set_list s ≡ₚ elements s.

(** C3. For a source with an entry in the config list, [merge_files] returns
    and the persisted [article_cnt] is the one before plus the length [n] of
    the persisted delta; it never decreases, the other sources keep theirs;
    with [n = 0] the config list is not touched, while the DeltaSet file is
    still rewritten to the union of delta and cumulative set, which is then
    the cumulative set. *)
Theorem commit_monotone di i md k w :
  conf_id di = Some i → map_file w = Some md → lookup_cnt i md = Some k →
  let n := Z.of_nat (length (default [] (new_urls_dir w !! i))) in
  let union := url_set (new_urls_dir w) i ∪ url_set (urls_dir w) i in
  let r := merge_files set_list di w in
  r.1 = Ret tt
  ∧ (∃ md', map_file r.2 = Some md'
            ∧ lookup_cnt i md' = Some (k + n)
            ∧ ∀ j, j ≠ i → lookup_cnt j md' = lookup_cnt j md)
  ∧ k ≤ k + n
  ∧ (n = 0 → map_file r.2 = Some md)
  ∧ new_urls_dir r.2 !! i = Some (set_list union)
  ∧ url_set (new_urls_dir r.2) i = union
  ∧ (n = 0 → url_set (new_urls_dir r.2) i = url_set (urls_dir w) i).
Proof using set_list_perm.
  intros Hid Hmap Hk n union r. subst r.
  rewrite (merge_files_spec di i w Hid). fold n. rewrite Hmap.
  assert (url_set (<[i := set_list union]> (new_urls_dir w)) i = union) as Hset.
  { by rewrite url_set_insert_eq, set_list_set. }
  assert (n = 0 → union = url_set (urls_dir w) i) as Hzero.
  { intros Hn. subst union. unfold url_set at 1.
    destruct (new_urls_dir w !! i) as [[|u l]|]; simpl in *; try lia.
    all: set_solver. }
  destruct (0 <? n) eqn:Hpos; simpl.
  - apply Z.ltb_lt in Hpos.
    destruct (bump_first_found i n md k Hk) as (md' & -> & Hi & Hj). simpl.
    rewrite lookup_insert_eq. repeat split; try done; try lia.
    eexists. split; [reflexivity|]. by split.
  - apply Z.ltb_ge in Hpos. assert (n = 0) as Hn by lia.
    rewrite lookup_insert_eq. repeat split; try done; try lia.
    + exists md. rewrite Hn, Z.add_0_r. done.
    + intros _. etransitivity; [exact Hset | by apply Hzero].
Qed.

End commit.

(** The commit of the scenario: two new URLs move the counter from 7 to 9. *)
Lemma commit_monotone_witness :
  let r := merge_files elements techcrunch_conf scenario_delta_world in
  r.1 = Ret tt
  ∧ ∃ md', map_file r.2 = Some md' ∧ lookup_cnt "techcrunch" md' = Some 9.
Proof.
  intros r.
  destruct (commit_monotone elements (λ s, reflexivity _) techcrunch_conf
              "techcrunch" [techcrunch_conf; inc42_conf] 7 scenario_delta_world
              eq_refl eq_refl eq_refl)
    as (Hret & (md' & Hmd & Hcnt & _) & _).
  split; [exact Hret|]. exists md'. split; [exact Hmd | exact Hcnt].
Defined.

(** ** What commit and the xpath reconcile leave alone *)

Section frame.
Variable set_list : gset string → list string.

Lemma xpath_reconcile_frame config C w :
  let w' := (CustomScraper.reconcile set_list config C w).2 in
  (∀ x l, urls_dir w !! x = Some l → urls_dir w' !! x = Some l)
  ∧ (∀ x, urls_dir w !! x = None →
          urls_dir w' !! x = None
          ∨ (conf_id config = Some x ∧ urls_dir w' !! x = Some []))
  ∧ (∀ x, url_set (urls_dir w') x = url_set (urls_dir w) x).
Proof.
  unfold CustomScraper.reconcile, CustomScraper.init, CustomScraper.process.
  destruct (conf_id config) as [i|]; [|by run; auto].
  destruct (conf_xpath config) as [xp|]; [|by run; auto].
  destruct (conf_url config) as [u|]; [|by run; auto].
  run. destruct (urls_dir w !! i) as [l|] eqn:Hl; run.
  - rewrite Hl. simpl. auto.
  - rewrite lookup_insert_eq. simpl. repeat split.
    + intros x l Hx. rewrite lookup_insert_ne; [done|congruence].
    + intros x Hx. destruct (decide (i = x)) as [->|Hne].
      * right. by rewrite lookup_insert_eq.
      * left. by rewrite lookup_insert_ne.
    + intros x. by apply url_set_insert_nil.
Qed.

Lemma merge_files_frame di w :
  let w' := (merge_files set_list di w).2 in
  (∀ x l, urls_dir w !! x = Some l → urls_dir w' !! x = Some l)
  ∧ (∀ x, urls_dir w !! x = None →
          urls_dir w' !! x = None
          ∨ (conf_id di = Some x ∧ urls_dir w' !! x = Some []))
  ∧ (∀ x, url_set (urls_dir w') x = url_set (urls_dir w) x)
  ∧ (∀ x, conf_id di ≠ Some x → new_urls_dir w' !! x = new_urls_dir w !! x)
  ∧ articles_dir w' = articles_dir w
  ∧ llm_log w' = llm_log w.
Proof.
  destruct (conf_id di) as [i|] eqn:Hid.
  2: { rewrite merge_files_no_id by done. simpl. repeat split; auto. }
  rewrite (merge_files_spec set_list di i w Hid).
  destruct (0 <? _); [destruct (map_file w); [destruct (bump_first _ _ _)|]|]; simpl.
  all: split_and!; try done.
  all: try (intros x ? Hx; destruct (decide (i = x)) as [->|Hne];
            [by rewrite lookup_insert_eq, Hx | by rewrite lookup_insert_ne]).
  all: try (intros x Hx; destruct (decide (i = x)) as [->|Hne];
            [right; by rewrite lookup_insert_eq, Hx
            |left; by rewrite lookup_insert_ne]).
  all: try (intros x; unfold url_set; destruct (decide (i = x)) as [->|Hne];
            [by rewrite lookup_insert_eq | by rewrite lookup_insert_ne]).
  all: intros x Hx; rewrite lookup_insert_ne; [done|congruence].
Qed.

(** C9 (as amended). [merge_files] never changes an existing cumulative
    file: it only creates the one of its source, empty, when it is missing.
    So the cumulative URLSet of every source, read as a set, is the same
    before and after commit; the DeltaSet files of the other sources, the
    article records and the log of LLM calls are not touched. The xpath
    reconcile treats the cumulative files in the same way. *)
Theorem commit_frame di C w :
  let w' := (merge_files set_list di w).2 in
  let w'' := (CustomScraper.reconcile set_list di C w).2 in
  ((∀ x l, urls_dir w !! x = Some l → urls_dir w' !! x = Some l)
   ∧ (∀ x, urls_dir w !! x = None →
           urls_dir w' !! x = None
           ∨ (conf_id di = Some x ∧ urls_dir w' !! x = Some []))
   ∧ (∀ x, url_set (urls_dir w') x = url_set (urls_dir w) x)
   ∧ (∀ x, conf_id di ≠ Some x → new_urls_dir w' !! x = new_urls_dir w !! x)
   ∧ articles_dir w' = articles_dir w
   ∧ llm_log w' = llm_log w)
  ∧ ((∀ x l, urls_dir w !! x = Some l → urls_dir w'' !! x = Some l)
     ∧ (∀ x, urls_dir w !! x = None →
             urls_dir w'' !! x = None
             ∨ (conf_id di = Some x ∧ urls_dir w'' !! x = Some []))
     ∧ (∀ x, url_set (urls_dir w'') x = url_set (urls_dir w) x)).
Proof.
  split; [apply merge_files_frame | apply xpath_reconcile_frame].
Qed.

End frame.

(** C9 as stated fails where the cumulative file of the source is missing:
    commit writes it, as an empty list. *)
Lemma commit_frame_counterexample :
  let w' := (merge_files elements inc42_conf scenario_world).2 in
  urls_dir scenario_world !! "inc42" = None
  ∧ urls_dir w' !! "inc42" = Some []
  ∧ urls_dir w' ≠ urls_dir scenario_world.
Proof. intros w'. repeat split; compute_done. Qed.

(** ** Allocation of article indices *)

Lemma zfill_four_digits (i : Z) :
  0 ≤ i < 10000 → zfill (str i) 4 = four_digits i.
Proof.
  intros Hi.
  assert (forallb (λ j, String.eqb (zfill (str j) 4) (four_digits j))
            (seqZ 0 10000) = true) as Hall by (vm_compute; reflexivity).
  rewrite forallb_forall in Hall.
  apply String.eqb_eq, Hall, list_elem_of_In, elem_of_seqZ. lia.
Qed.

Lemma map_urls_loop_notin (k : Z) (l : list string) (s : Z) (m : gmap string Z) url :
  url ∉ l →
  foldl (λ m '(i, u), <[u := k + i]> m) m (enumerate l s) !! url = m !! url.
Proof.
  revert s m. induction l as [|x l IH]; intros s m Hnot; simpl; [done|].
  apply not_elem_of_cons in Hnot as [Hne Hnot].
  rewrite IH by done. by rewrite lookup_insert_ne.
Qed.

Lemma map_urls_loop_lookup (k : Z) (l : list string) (s : Z) (m : gmap string Z)
    (p : nat) url :
  NoDup l → l !! p = Some url →
  foldl (λ m '(i, u), <[u := k + i]> m) m (enumerate l s) !! url
  = Some (k + (s + Z.of_nat p)).
Proof.
  revert s m p. induction l as [|x l IH]; intros s m p Hnd Hp; [done|].
  apply NoDup_cons in Hnd as [Hx Hnd]. destruct p as [|p]; simpl in *.
  - injection Hp as ->. rewrite map_urls_loop_notin by done.
    rewrite lookup_insert_eq. f_equal. lia.
  - rewrite (IH _ _ p) by done. f_equal. lia.
Qed.

Lemma map_urls_loop_dom (k : Z) (l : list string) (s : Z) (m : gmap string Z) :
  dom (foldl (λ m '(i, u), <[u := k + i]> m) m (enumerate l s))
  = list_to_set l ∪ dom m.
Proof.
  revert s m. induction l as [|x l IH]; intros s m; simpl.
  - set_solver.
  - rewrite IH, dom_insert_L. set_solver.
Qed.

Lemma extractor_init_spec today conf sid k w :
  conf_id conf = Some sid → counter conf = Some k →
  let delta := default [] (new_urls_dir w !! sid) in
  ArticleExtractor.init today conf w
  = (Ret (ArticleExtractor.map_urls
            (ArticleExtractor.Extractor today sid k delta ∅)), w).
Proof.
  intros Hid Hk. unfold ArticleExtractor.init, as_int. unfold counter in Hk.
  rewrite Hid, Hk. run.
  destruct (new_urls_dir w !! sid) as [l|] eqn:Hl; run; by rewrite ?Hl.
Qed.




Lemma process_result_mapped (e : ArticleExtractor.t) url md html i w :
  ArticleExtractor.map e !! url = Some i →
  ArticleExtractor.process_result e (ArticleExtractor.CrawlResult url md html true) w
  = ArticleExtractor.save_json e url
      (ArticleExtractor.or_str md (ArticleExtractor.or_str html ""))
      (fileid (ArticleExtractor.id e) i) w.
Proof.
  intros Hm. unfold ArticleExtractor.process_result. run. by rewrite Hm.
Qed.

(** C4. With counter [k] and a persisted delta list of [n] distinct URLs, the
    allocator maps the URL at position [p] of the list (from 0) to the index
    [k + p + 1], so the indices are [k+1 .. k+n] in the order of the list, and
    nothing else is mapped; the record of that URL is saved under the source
    id joined by "_" with [str(index).zfill(4)], which for an index below
    10000 is the index written with four digits. *)
Theorem sequential_index_allocation today conf sid k delta w :
  conf_id conf = Some sid → counter conf = Some k →
  new_urls_dir w !! sid = Some delta → NoDup delta →
  ∃ e,
    ArticleExtractor.init today conf w = (Ret e, w)
    ∧ ArticleExtractor.article_cnt e = k + Z.of_nat (length delta)
    ∧ dom (ArticleExtractor.map e) = list_to_set delta
    ∧ (∀ (p : nat) url, delta !! p = Some url →
         ArticleExtractor.map e !! url = Some (k + Z.of_nat p + 1))
    ∧ (∀ (p : nat) url md html w0, delta !! p = Some url →
         let key := fileid sid (k + Z.of_nat p + 1) in
         ∃ data,
           ArticleExtractor.process_result e
             (ArticleExtractor.CrawlResult url md html true) w0
           = (Ret tt, set_articles_dir <[key := data]> w0)
           ∧ data !! "url" = Some (JStr url)
           ∧ data !! "path" = Some (JStr key)
           ∧ key = sid +:+ "_" +:+ zfill (str (k + Z.of_nat p + 1)) 4
           ∧ (0 ≤ k + Z.of_nat p + 1 < 10000 →
              key = sid +:+ "_" +:+ four_digits (k + Z.of_nat p + 1))).
Proof.
  intros Hid Hk Hdelta Hnd.
  rewrite (extractor_init_spec today conf sid k w Hid Hk), Hdelta. simpl.
  eexists. split; [reflexivity|]. simpl.
  assert (∀ (p : nat) url, delta !! p = Some url →
    foldl (λ m '(i, u), <[u := k + i]> m) (∅ : gmap string Z) (enumerate delta 1)
      !! url = Some (k + Z.of_nat p + 1)) as Hmap.
  { intros p url Hp. rewrite (map_urls_loop_lookup k delta 1 ∅ p url Hnd Hp).
    f_equal. lia. }
  split_and!; [done | | exact Hmap |].
  - rewrite map_urls_loop_dom. set_solver.
  - intros p url md html w0 Hp.
    eexists. split.
    { rewrite (process_result_mapped _ url md html (k + Z.of_nat p + 1) w0)
        by (simpl; by apply Hmap).
      reflexivity. }
    split_and!; try done.
    intros Hrange. unfold fileid. by rewrite zfill_four_digits.
Qed.

(** The scenario of the specification: counter 7, delta
    [a.com/3, a.com/4], keys "techcrunch_0008" and "techcrunch_0009". *)
Lemma sequential_index_allocation_witness :
  ∃ e,
    ArticleExtractor.init "2025-01-01" techcrunch_conf scenario_delta_world
    = (Ret e, scenario_delta_world)
    ∧ ArticleExtractor.map e !! "a.com/3" = Some 8
    ∧ ArticleExtractor.map e !! "a.com/4" = Some 9
    ∧ fileid "techcrunch" 8 = "techcrunch_0008"
    ∧ fileid "techcrunch" 9 = "techcrunch_0009".
Proof.
  destruct (sequential_index_allocation "2025-01-01" techcrunch_conf "techcrunch"
              7 ["a.com/3"; "a.com/4"] scenario_delta_world eq_refl eq_refl eq_refl)
    as (e & Hinit & _ & _ & Hmap & _).
  { repeat constructor; set_solver. }
  exists e. split; [exact Hinit|].
  split; [exact (Hmap 0%nat "a.com/3" eq_refl)|].
  split; [exact (Hmap 1%nat "a.com/4" eq_refl)|].
  split; reflexivity.
Defined.

(** ** Configuration errors *)

Section config_errors.
Variable set_list : gset string → list string.


End config_errors.



(** The entry of the scenario with [article_cnt] present and [null]: the
    allocator raises [TypeError] and the exception propagates. *)
Example allocator_null_counter_example :
  ArticleExtractor.init "2025-01-01" null_cnt_conf scenario_delta_world
  = (Raise TypeError, scenario_delta_world).
Proof. reflexivity. Qed.

(** ** Reconcile with no candidate, and the delta files downstream *)

Section empty_candidates.
Variable set_list : gset string → list string.
Hypothesis set_list_perm : ∀ s, set_list s ≡ₚ elements s.

(** The xpath scraper on an empty candidate list: the DeltaSet file is
    written empty and the cumulative set stays. *)
Lemma xpath_empty_candidates conf i xp u w :
  conf_id conf = Some i → conf_xpath conf = Some xp → conf_url conf = Some u →
  let x := CustomScraper.reconcile set_list conf [] w in
  x.1 = Ret tt
  ∧ new_urls_dir x.2 !! i = Some []
  ∧ url_set (urls_dir x.2) i = url_set (urls_dir w) i.
Proof using set_list_perm.
  intros Hid Hxp Hu x.
  destruct (xpath_reconcile_spec set_list conf i xp u [] w Hid Hxp Hu)
    as (w' & Hx & Hn & Ho & _).
  subst x. rewrite Hx. simpl. split; [done|]. split.
  - rewrite Hn. f_equal.
    replace (list_to_set [] ∖ url_set (urls_dir w) i) with (∅ : gset string)
      by set_solver.
    by apply set_list_empty.
  - unfold url_set at 1. by rewrite Ho.
Qed.

(** The two functions that overwrite a DeltaSet file ([process] and
    [merge_files]) write a list without duplicates; every other writer
    creates a missing file, empty. *)
Lemma delta_writers_NoDup conf_r conf_x i j xp u C' w l :
  conf_id conf_r = Some i →
  conf_id conf_x = Some j → conf_xpath conf_x = Some xp →
  conf_url conf_x = Some u →
  (new_urls_dir (CustomScraper.reconcile set_list conf_x C' w).2 !! j = Some l
   ∨ new_urls_dir (merge_files set_list conf_r w).2 !! i = Some l) →
  NoDup l.
Proof using set_list_perm.
  intros Hi Hj Hxp Hu [H|H].
  - destruct (xpath_reconcile_spec set_list conf_x j xp u C' w Hj Hxp Hu)
      as (w' & Hx & Hn & _).
    rewrite Hx in H. simpl in H. rewrite Hn in H. injection H as <-.
    by apply set_list_NoDup.
  - rewrite (merge_files_spec set_list conf_r i w Hi) in H.
    destruct (0 <? _); [destruct (map_file w); [destruct (bump_first _ _ _)|]|];
      simpl in H.
    all: rewrite lookup_insert_eq in H; injection H as <-.
    all: by apply set_list_NoDup.
Qed.

(** Downstream of an empty DeltaSet file there is nothing to do: no index
    is allocated, no article file is listed, and commit returns without
    touching the config list. *)
Lemma empty_delta_downstream today template conf i k w :
  conf_id conf = Some i → counter conf = Some k →
  new_urls_dir w !! i = Some [] →
  (∃ e, ArticleExtractor.init today conf w = (Ret e, w)
        ∧ ArticleExtractor.map e = ∅
        ∧ ArticleExtractor.article_cnt e = k)
  ∧ (∃ s, Summariser.init template conf w = (Ret s, w)
          ∧ Summariser.new_filepaths s = [])
  ∧ (∃ d, DBHandler.init conf w = (Ret d, w)
          ∧ DBHandler.new_filepaths d = [])
  ∧ (merge_files set_list conf w).1 = Ret tt
  ∧ map_file (merge_files set_list conf w).2 = map_file w.
Proof.
  intros Hid Hk Hn. pose proof Hk as Hk'. unfold counter in Hk'. split_and!.
  - rewrite (extractor_init_spec today conf i k w Hid Hk), Hn. simpl.
    eexists. split; [reflexivity|]. simpl. split; [done|lia].
  - unfold Summariser.init, as_int. rewrite Hid, Hk'. run. rewrite Hn. run.
    rewrite Hn.
    eexists. split; [reflexivity|]. simpl.
    unfold range. by replace (_ + 0 + 1 - _) with 0 by lia.
  - unfold DBHandler.init, as_int. rewrite Hid, Hk'. run. rewrite Hn. run.
    rewrite Hn.
    eexists. split; [reflexivity|]. simpl.
    unfold range. by replace (_ + 0 + 1 - _) with 0 by lia.
  - rewrite (merge_files_spec set_list conf i w Hid), Hn. done.
  - rewrite (merge_files_spec set_list conf i w Hid), Hn. done.
Qed.

End empty_candidates.

(** C5, on the RSS path. The run after the commit of the scenario: the
    DeltaSet file holds the four URLs that commit left in it. Whatever the
    feed lists, nothing included, [update_file] raises [NameError] at the
    request: the DeltaSet file is not emptied, and the exception, which
    nothing catches, ends the run. *)
Theorem empty_candidates_rss_stale_delta :
  let r := RssHandler.reconcile elements techcrunch_conf_next committed_world in
  r.1 = Raise (NameError "proxies")
  ∧ r.2 = committed_world
  ∧ url_set (new_urls_dir r.2) "techcrunch"
    = {[ "a.com/1"; "a.com/2"; "a.com/3"; "a.com/4" ]}
  ∧ new_urls_dir r.2 !! "techcrunch" ≠ Some [].
Proof.
  intros r. split_and!.
  - vm_compute; reflexivity.
  - vm_compute; reflexivity.
  - compute_done.
  - compute_done.
Qed.

(** ** The fenced block of a summariser response *)

Lemma of_nat_ltb_0 (n : nat) : (Z.of_nat n <? 0) = false.
Proof. apply Z.ltb_ge. lia. Qed.

Lemma of_nat_eqb_m1 (n : nat) : (Z.of_nat n =? -1) = false.
Proof. apply Z.eqb_neq. lia. Qed.

Lemma substring_length_le (s : string) (n m : nat) :
  (String.length (String.substring n m s) ≤ String.length s - n)%nat.
Proof.
  revert n m. induction s as [|c s IH]; intros [|n] [|m]; simpl.
  all: first [lia | apply IH | specialize (IH 0%nat m); lia].
Qed.

Lemma occurs_at_bound (sub s : string) (p : nat) :
  occurs_at sub s p → (p + String.length sub ≤ String.length s)%nat ∨ sub = "".
Proof.
  unfold occurs_at. intros H.
  pose proof (substring_length_le s p (String.length sub)) as Hle.
  rewrite H in Hle. destruct sub; [by right|left]. simpl in *. lia.
Qed.

Lemma index_ge (n m : nat) (s1 s2 : string) :
  String.index n s1 s2 = Some m → (n ≤ m)%nat.
Proof.
  revert n m. induction s2 as [|b s2 IH]; intros [|n] m; simpl; try lia.
  - discriminate.
  - destruct (String.index n s1 s2) as [k|] eqn:Hk; [|discriminate].
    intros [= <-]. apply IH in Hk. lia.
Qed.

(** [String.index] finds the first marker at or after [n], and only that. *)
Lemma index_marker_from (text : string) (n m : nat) :
  String.index n "```" text = Some m ↔ marker_from text n m.
Proof.
  split.
  - intros H. split_and!.
    + by eapply index_ge.
    + by apply (String.index_correct1 n m "```" text).
    + intros p [Hp1 Hp2]. by apply (String.index_correct2 n m "```" text).
  - intros (Hge & Hocc & Hleast).
    destruct (String.index n "```" text) as [m'|] eqn:Hi.
    + f_equal. pose proof (index_ge _ _ _ _ Hi) as Hge'.
      pose proof (String.index_correct1 _ _ _ _ Hi) as Hocc'.
      pose proof (String.index_correct2 _ _ _ _ Hi) as Hleast'.
      destruct (Nat.lt_trichotomy m m') as [Hlt|[->|Hgt]]; [|done|].
      * exfalso. by apply (Hleast' m).
      * exfalso. by apply (Hleast m').
    + exfalso. by apply (String.index_correct3 n m "```" text).
Qed.

Lemma find_marker (text : string) (start m : nat) :
  (start ≤ String.length text)%nat → marker_from text start m →
  find text "```" (Z.of_nat start) = Z.of_nat m.
Proof.
  intros Hs Hm. unfold find, slice_bound, len.
  rewrite (of_nat_ltb_0 start).
  rewrite Z.min_l, Nat2Z.id by lia.
  apply index_marker_from in Hm. by rewrite Hm.
Qed.

Lemma find_no_marker (text : string) (start : nat) :
  (start ≤ String.length text)%nat → (∀ m, ¬ marker_from text start m) →
  find text "```" (Z.of_nat start) = -1.
Proof.
  intros Hs Hm. unfold find, slice_bound, len.
  rewrite (of_nat_ltb_0 start).
  rewrite Z.min_l, Nat2Z.id by lia.
  destruct (String.index start "```" text) as [m|] eqn:Hi; [|done].
  apply index_marker_from in Hi. by destruct (Hm m).
Qed.

Lemma marker_bound (text : string) (start m : nat) :
  marker_from text start m → (m + 3 ≤ String.length text)%nat.
Proof.
  intros (_ & Hocc & _). by destruct (occurs_at_bound _ _ _ Hocc).
Qed.

Lemma slice_substring (s : string) (a b : nat) :
  (a ≤ b ≤ String.length s)%nat →
  slice s (Z.of_nat a) (Z.of_nat b) = String.substring a (b - a) s.
Proof.
  intros H. unfold slice, slice_bound, len.
  rewrite (of_nat_ltb_0 a).
  rewrite (of_nat_ltb_0 b).
  rewrite !Z.min_l by lia. f_equal; lia.
Qed.

Lemma substring_drop_chars (s : string) (n : nat) :
  String.substring n (String.length s - n) s = drop_chars n s.
Proof.
  revert n. induction s as [|c s IH]; intros [|n]; simpl; try done.
  f_equal. specialize (IH 0%nat). simpl in IH.
  by rewrite Nat.sub_0_r in IH.
Qed.

Lemma slice_from_drop_chars (s : string) (n : nat) :
  slice_from s (Z.of_nat n) = drop_chars n s.
Proof.
  unfold slice_from, slice, slice_bound, len.
  rewrite (of_nat_ltb_0 n).
  rewrite (of_nat_ltb_0 (String.length s)).
  rewrite Z.min_id.
  destruct (decide (n ≤ String.length s)%nat) as [Hle|Hgt].
  - rewrite Z.min_l by lia.
    replace (Z.to_nat (Z.of_nat (String.length s) - Z.of_nat n))
      with (String.length s - n)%nat by lia.
    rewrite Nat2Z.id. apply substring_drop_chars.
  - rewrite Z.min_r by lia.
    replace (Z.to_nat (_ - _)) with (String.length s - String.length s)%nat by lia.
    rewrite Nat2Z.id, substring_drop_chars.
    assert (∀ (t : string) (k m : nat),
              (String.length t ≤ k)%nat → (String.length t ≤ m)%nat →
              drop_chars k t = drop_chars m t) as Hover.
    { induction t as [|c t IH]; intros [|k] [|m]; simpl; try done; try lia.
      intros. apply IH; lia. }
    apply Hover; lia.
Qed.

(** The extraction, stated on the markers. *)
Lemma extract_between_markers (text : string) (i j : nat) :
  marker_from text 0 i → marker_from text (i + 3) j →
  extract_between_backticks text
  = strip (String.substring (i + 3) (j - (i + 3)) text).
Proof.
  intros Hi Hj. unfold extract_between_backticks.
  pose proof (marker_bound _ _ _ Hi) as Hbi.
  pose proof (marker_bound _ _ _ Hj) as Hbj.
  destruct Hj as (Hge & Hj'). assert (marker_from text (i + 3) j) as Hj by done.
  pose proof (find_marker text 0 i ltac:(lia) Hi) as Hf.
  change (Z.of_nat 0) with 0 in Hf. rewrite Hf.
  rewrite (of_nat_eqb_m1 i). cbn [negb].
  replace (Z.of_nat i + 3) with (Z.of_nat (i + 3)) by lia.
  rewrite (find_marker text (i + 3) j) by (done || lia).
  rewrite (of_nat_eqb_m1 j). cbn [negb].
  by rewrite slice_substring by lia.
Qed.

Lemma extract_without_markers (text : string) :
  (∀ i j, ¬ (marker_from text 0 i ∧ marker_from text (i + 3) j)) →
  extract_between_backticks text = "".
Proof.
  intros Hno. unfold extract_between_backticks.
  destruct (String.index 0 "```" text) as [i|] eqn:Hi.
  - apply index_marker_from in Hi.
    pose proof (marker_bound _ _ _ Hi) as Hbi.
    pose proof (find_marker text 0 i ltac:(lia) Hi) as Hf.
    change (Z.of_nat 0) with 0 in Hf. rewrite Hf.
    rewrite (of_nat_eqb_m1 i). cbn [negb].
    replace (Z.of_nat i + 3) with (Z.of_nat (i + 3)) by lia.
    rewrite find_no_marker; [done|lia|].
    intros j Hj. by apply (Hno i j).
  - pose proof (find_no_marker text 0 ltac:(lia)) as Hf.
    change (Z.of_nat 0) with 0 in Hf. rewrite Hf; [done|].
    intros m Hm. apply index_marker_from in Hm. congruence.
Qed.

(** ** The Summarize stage *)

Section summarise.
Variable llm_invoke : string → exn + string.
Variable json_loads : string → option json.

Lemma item_0 (c : ascii) (s : string) : item (String c s) 0 = inr c.
Proof.
  unfold item, len. simpl String.length.
  replace (0 <? Z.of_nat (S (String.length s))) with true
    by (symmetry; apply Z.ltb_lt; lia).
  reflexivity.
Qed.

(** [llm_call] in closed form: one logged call, then the fenced block. *)
Lemma llm_call_spec (self : Summariser.t) (article_text : string) w :
  let prompt := Summariser.generate_summary_message self article_text in
  let w1 := log_llm prompt w in
  Summariser.llm_call llm_invoke json_loads self article_text w
  = match llm_invoke prompt with
    | inl e => (Raise e, w1)
    | inr chat_response =>
        match extract_between_backticks chat_response with
        | EmptyString => (Raise IndexError, w1)
        | String c rest =>
            if Ascii.eqb c "j"
            then Summariser.loads json_loads (drop_chars 4 (String c rest)) w1
            else Summariser.loads json_loads (String c rest) w1
        end
    end.
Proof.
  intros prompt w1. set (d := drop_chars 4).
  unfold Summariser.llm_call. run. fold prompt. fold w1.
  destruct (llm_invoke prompt) as [e|resp]; [done|].
  destruct (extract_between_backticks resp) as [|c rest] eqn:Hs1; [done|].
  rewrite item_0. simpl.
  change 4 with (Z.of_nat 4). rewrite slice_from_drop_chars. subst d.
  by destruct (Ascii.eqb c "j").
Qed.

(** A record with a summary is left alone. *)
Lemma process_article_skip (self : Summariser.t) filename data summary w :
  articles_dir w !! filename = Some data →
  data !! "summary" = Some summary → truthy summary = true →
  (Summariser.process_article llm_invoke json_loads self filename w).2 = w
  ∧ (Summariser.process_article llm_invoke json_loads self filename w).1
    = match default (JStr "") (data !! "html") with
      | JStr _ => Ret tt
      | _ => Raise AttributeError
      end.
Proof.
  intros Hf Hs Ht. unfold Summariser.process_article. run. rewrite Hf. simpl.
  rewrite Hs. simpl. rewrite Ht.
  destruct (default (JStr "") (data !! "html")) as [| | |html| |]; try done.
  by destruct (String.eqb (strip html) "").
Qed.

(** A response without a usable fenced block changes no record. *)
Lemma process_article_no_block (self : Summariser.t) filename data html resp w :
  articles_dir w !! filename = Some data →
  data !! "html" = Some (JStr html) →
  llm_invoke (Summariser.generate_summary_message self html) = inr resp →
  extract_between_backticks resp = "" →
  ∃ w', Summariser.process_article llm_invoke json_loads self filename w
        = (Ret tt, w')
        ∧ articles_dir w' = articles_dir w.
Proof.
  intros Hf Hh Hllm Hext. unfold Summariser.process_article.
  unfold mbind, M_bind, try_except, try_except_not_found, read_article,
    mret, M_ret.
  rewrite Hf, Hh. cbn [from_option]. unfold id at 1.
  destruct (String.eqb (strip html) ""); [by eexists|].
  destruct (truthy _); [by eexists|].
  rewrite llm_call_spec, Hllm, Hext. by eexists.
Qed.

(** C6. On a record whose [summary] is non-empty, the Summarize stage calls
    the LLM zero times and writes nothing: the world, with every record file
    and the log of LLM calls, is exactly the one before. *)
Theorem summarize_skip_idempotent (self : Summariser.t) filename data summary w :
  articles_dir w !! filename = Some data →
  data !! "summary" = Some summary → truthy summary = true →
  let r := Summariser.process_article llm_invoke json_loads self filename w in
  llm_log r.2 = llm_log w
  ∧ articles_dir r.2 = articles_dir w
  ∧ r.2 = w
  ∧ (Summariser.process_article llm_invoke json_loads self filename r.2).2 = w.
Proof.
  intros Hf Hs Ht r.
  destruct (process_article_skip self filename data summary w Hf Hs Ht) as [Hw _].
  subst r. rewrite !Hw. done.
Qed.

(** C10. [extract_between_backticks] returns the text between the first
    triple-backtick marker and the next one after it, stripped, and the empty
    string when there are no two such markers; [llm_call] parses the block
    without its first four characters when it starts with "j", and as it is
    otherwise; an empty block raises [IndexError], which [process_article]
    catches, leaving every record file as it was. *)
Theorem summariser_fence_extraction (self : Summariser.t) :
  (∀ text i j, marker_from text 0 i → marker_from text (i + 3) j →
     extract_between_backticks text
     = strip (String.substring (i + 3) (j - (i + 3)) text))
  ∧ (∀ text, (∀ i j, ¬ (marker_from text 0 i ∧ marker_from text (i + 3) j)) →
       extract_between_backticks text = "")
  ∧ (∀ article_text resp w,
       let prompt := Summariser.generate_summary_message self article_text in
       llm_invoke prompt = inr resp →
       Summariser.llm_call llm_invoke json_loads self article_text w
       = match extract_between_backticks resp with
         | EmptyString => (Raise IndexError, log_llm prompt w)
         | String c rest =>
             Summariser.loads json_loads
               (if Ascii.eqb c "j" then drop_chars 4 (String c rest)
                else String c rest)
               (log_llm prompt w)
         end)
  ∧ (∀ filename data html resp w,
       articles_dir w !! filename = Some data →
       data !! "html" = Some (JStr html) →
       llm_invoke (Summariser.generate_summary_message self html) = inr resp →
       extract_between_backticks resp = "" →
       let r := Summariser.process_article llm_invoke json_loads self filename w in
       r.1 = Ret tt ∧ articles_dir r.2 = articles_dir w).
Proof.
  split_and!.
  - apply extract_between_markers.
  - apply extract_without_markers.
  - intros article_text resp w prompt Hllm.
    rewrite llm_call_spec. fold prompt. rewrite Hllm.
    destruct (extract_between_backticks resp) as [|c rest]; [done|].
    by destruct (Ascii.eqb c "j").
  - intros filename data html resp w Hf Hh Hllm Hext r.
    destruct (process_article_no_block self filename data html resp w
                Hf Hh Hllm Hext) as (w' & Hr & Hw).
    subst r. by rewrite Hr.
Qed.

End summarise.

Lemma summarize_skip_idempotent_witness :
  (Summariser.process_article unfenced_llm (λ _, None) scenario_summariser
     "techcrunch_0008" records_world).2 = records_world.
Proof.
  destruct (summarize_skip_idempotent unfenced_llm (λ _, None) scenario_summariser
              "techcrunch_0008" summarised_record
              (JStr "A startup raised a round.") records_world
              eq_refl eq_refl eq_refl)
    as (_ & _ & Hw & _).
  exact Hw.
Defined.

Lemma summariser_fence_extraction_witness :
  extract_between_backticks "ab```json cd ```ef" = "json cd"
  ∧ articles_dir
      (Summariser.process_article unfenced_llm (λ _, None) scenario_summariser
         "techcrunch_0009" records_world).2
    = articles_dir records_world.
Proof.
  destruct (summariser_fence_extraction unfenced_llm (λ _, None) scenario_summariser)
    as (Hext & _ & _ & Hrec).
  split.
  - rewrite (Hext "ab```json cd ```ef" 2%nat 13%nat).
    + reflexivity.
    + apply index_marker_from. reflexivity.
    + apply index_marker_from. reflexivity.
  - apply (Hrec "techcrunch_0009" fetched_record "Article body"
             "I cannot summarise this." records_world);
      reflexivity.
Defined.

(** ** Deduplication of the articles table *)

Section dedup.
Import DBHandler.

Lemma min_id_elem (i : Z) (ids : list Z) : min_id i ids ∈ i :: ids.
Proof.
  induction ids as [|j ids IH]; simpl; [set_solver|].
  destruct (Z.min_spec j (min_id i ids)) as [[_ ->]|[_ ->]]; [set_solver|].
  apply elem_of_cons in IH as [->|IH]; set_solver.
Qed.

Lemma min_id_le (i : Z) (ids : list Z) j : j ∈ i :: ids → min_id i ids ≤ j.
Proof.
  induction ids as [|x ids IH]; simpl; intros Hj.
  - apply elem_of_cons in Hj as [->|Hj]; [lia|set_solver].
  - apply elem_of_cons in Hj as [->|Hj].
    + etransitivity; [apply Z.le_min_r|]. apply IH. set_solver.
    + apply elem_of_cons in Hj as [->|Hj]; [apply Z.le_min_l|].
      etransitivity; [apply Z.le_min_r|]. apply IH. set_solver.
Qed.

Lemma elem_of_group_ids (t : list row) k i :
  i ∈ group_ids t k ↔ ∃ r, r ∈ t ∧ group_key r = k ∧ row_id r = i.
Proof.
  unfold group_ids. rewrite list_elem_of_fmap. split.
  - intros (r & -> & Hr). apply list_elem_of_filter in Hr as [Hk Hr]. eauto.
  - intros (r & Hr & Hk & <-). exists r. split; [done|].
    by apply list_elem_of_filter.
Qed.

(** The minimum of a group that has a row is the id of a row of the group,
    and is below the id of every row of the group. *)
Lemma group_min_spec (t : list row) r :
  r ∈ t →
  (∃ r0, r0 ∈ t ∧ group_key r0 = group_key r
         ∧ row_id r0 = group_min t (group_key r))
  ∧ (∀ r', r' ∈ t → group_key r' = group_key r →
           group_min t (group_key r) ≤ row_id r').
Proof.
  intros Hr. unfold group_min.
  assert (row_id r ∈ group_ids t (group_key r)) as Hin.
  { apply elem_of_group_ids. eauto. }
  destruct (group_ids t (group_key r)) as [|i ids] eqn:Hg; [set_solver|].
  split.
  - pose proof (min_id_elem i ids) as Hm. rewrite <- Hg in Hm.
    apply elem_of_group_ids in Hm as (r0 & ? & ? & ?). eauto.
  - intros r' Hr' Hk. apply min_id_le. rewrite <- Hg.
    apply elem_of_group_ids. eauto.
Qed.

Lemma elem_of_select_min_ids (t : list row) i :
  i ∈ select_min_ids t ↔ ∃ r, r ∈ t ∧ i = group_min t (group_key r).
Proof.
  unfold select_min_ids. rewrite list_elem_of_fmap. split.
  - intros (k & -> & Hk). rewrite elem_of_remove_dups in Hk.
    apply list_elem_of_fmap in Hk as (r & -> & Hr). eauto.
  - intros (r & Hr & ->). exists (group_key r). split; [done|].
    rewrite elem_of_remove_dups. apply list_elem_of_fmap. eauto.
Qed.

Lemma row_id_inj (t : list row) r1 r2 :
  NoDup (row_id <$> t) → r1 ∈ t → r2 ∈ t → row_id r1 = row_id r2 → r1 = r2.
Proof.
  intros Hnd H1 H2 Hid.
  apply list_elem_of_lookup in H1 as [i1 H1].
  apply list_elem_of_lookup in H2 as [i2 H2].
  assert (i1 = i2) as ->.
  { apply (NoDup_lookup _ _ _ (row_id r1) Hnd).
    - by rewrite list_lookup_fmap, H1.
    - by rewrite list_lookup_fmap, H2, Hid. }
  congruence.
Qed.

(** A row survives exactly when its id is the lowest of its group. *)
Lemma elem_of_delete_duplicates (t : list row) r :
  NoDup (row_id <$> t) →
  r ∈ delete_duplicates t
  ↔ r ∈ t ∧ ∀ r', r' ∈ t → group_key r' = group_key r → row_id r ≤ row_id r'.
Proof.
  intros Hnd. unfold delete_duplicates. rewrite list_elem_of_filter.
  rewrite elem_of_select_min_ids. split.
  - intros [(r1 & Hr1 & Hmin) Hr]. split; [done|].
    destruct (group_min_spec t r1 Hr1) as [(r0 & Hr0 & Hk0 & Hid0) Hle].
    assert (r = r0) as ->.
    { apply (row_id_inj t); [done..|congruence]. }
    intros r' Hr' Hk. rewrite Hmin. apply Hle; [done|congruence].
  - intros [Hr Hlow]. split; [|done]. exists r. split; [done|].
    destruct (group_min_spec t r Hr) as [(r0 & Hr0 & Hk0 & Hid0) Hle].
    specialize (Hlow r0 Hr0 Hk0). specialize (Hle r Hr eq_refl). lia.
Qed.

(** C8. On a table whose ids are distinct (the primary key), after
    [delete_duplicates] no two rows have the same [(pos, html)] pair; a row
    survives exactly when it has the lowest id among the rows with its pair,
    so every pair of the table keeps exactly that one row; the surviving rows
    stay as they were and in their order, and a row whose pair no other row
    has survives. *)
Theorem relational_dedup (articles : list row) :
  NoDup (row_id <$> articles) →
  let kept := delete_duplicates articles in
  (∀ r1 r2, r1 ∈ kept → r2 ∈ kept → group_key r1 = group_key r2 → r1 = r2)
  ∧ NoDup kept
  ∧ (∀ r, r ∈ kept ↔
          r ∈ articles
          ∧ ∀ r', r' ∈ articles → group_key r' = group_key r →
                  row_id r ≤ row_id r')
  ∧ (∀ r, r ∈ articles → ∃ r0, r0 ∈ kept ∧ group_key r0 = group_key r)
  ∧ sublist kept articles
  ∧ (∀ r, r ∈ articles →
          (∀ r', r' ∈ articles → group_key r' = group_key r → r' = r) →
          r ∈ kept).
Proof.
  intros Hnd kept. subst kept. split_and!.
  - intros r1 r2 H1 H2 Hk.
    apply (elem_of_delete_duplicates _ _ Hnd) in H1 as [H1 L1].
    apply (elem_of_delete_duplicates _ _ Hnd) in H2 as [H2 L2].
    apply (row_id_inj articles); [done..|].
    specialize (L1 r2 H2 (eq_sym Hk)). specialize (L2 r1 H1 Hk). lia.
  - apply NoDup_filter. by apply NoDup_fmap_1 in Hnd.
  - intros r. by apply elem_of_delete_duplicates.
  - intros r Hr.
    destruct (group_min_spec articles r Hr) as [(r0 & Hr0 & Hk0 & Hid0) Hle].
    exists r0. split; [|done].
    apply (elem_of_delete_duplicates _ _ Hnd). split; [done|].
    intros r' Hr' Hk. rewrite Hid0. apply Hle; [done|congruence].
  - apply sublist_filter.
  - intros r Hr Huniq. apply (elem_of_delete_duplicates _ _ Hnd).
    split; [done|]. intros r' Hr' Hk. by rewrite (Huniq r' Hr' Hk).
Qed.

End dedup.

Lemma relational_dedup_witness :
  DBHandler.delete_duplicates duplicated_table
  = [ DBHandler.Row 1 (Some "a.com/3") "techcrunch_0008";
      DBHandler.Row 2 (Some "a.com/4") "techcrunch_0009";
      DBHandler.Row 4 None "techcrunch_0010";
      DBHandler.Row 6 (Some "a.com/3") "techcrunch_0011" ]
  ∧ NoDup (DBHandler.delete_duplicates duplicated_table).
Proof.
  split; [vm_compute; reflexivity|].
  apply (relational_dedup duplicated_table). compute_done.
Defined.

(** * Further properties of the pipeline *)

(** ** Record file names *)

Lemma append_cons (c : ascii) (a b : string) :
  String c a +:+ b = String c (a +:+ b).
Proof. reflexivity. Qed.

Lemma append_nil_l (b : string) : "" +:+ b = b.
Proof. reflexivity. Qed.

Lemma append_nil_r (a : string) : a +:+ "" = a.
Proof. induction a as [|c a IH]; [done|]. by rewrite append_cons, IH. Qed.

Lemma zeros_string_of_uint (n : nat) (d : Decimal.uint) :
  zeros n +:+ NilEmpty.string_of_uint d
  = NilEmpty.string_of_uint (Nat.iter n Decimal.D0 d).
Proof.
  induction n as [|n IH]; [done|].
  simpl zeros. simpl Nat.iter. rewrite append_cons, IH. done.
Qed.

Lemma of_uint_iter_D0_l (n : nat) (d : Decimal.uint) :
  Pos.of_uint (Nat.iter n Decimal.D0 d) = Pos.of_uint d.
Proof. induction n as [|n IH]; simpl; [done|]. exact IH. Qed.

Lemma parse_index_of_int (d : Decimal.int) :
  parse_index (NilEmpty.string_of_int d) = Some (Z.of_int d).
Proof. unfold parse_index. by rewrite NilEmpty.isi. Qed.

Lemma parse_index_uint (n : nat) (d : Decimal.uint) :
  parse_index (zeros n +:+ NilEmpty.string_of_uint d)
  = Some (Z.of_int (Decimal.Pos d)).
Proof.
  rewrite zeros_string_of_uint.
  change (NilEmpty.string_of_uint ?x)
    with (NilEmpty.string_of_int (Decimal.Pos x)).
  rewrite parse_index_of_int. simpl. unfold Z.of_uint.
  by rewrite of_uint_iter_D0_l.
Qed.

Lemma parse_index_neg_uint (n : nat) (d : Decimal.uint) :
  parse_index (String "-" (zeros n +:+ NilEmpty.string_of_uint d))
  = Some (Z.of_int (Decimal.Neg d)).
Proof.
  rewrite zeros_string_of_uint.
  change (String "-" (NilEmpty.string_of_uint ?x))
    with (NilEmpty.string_of_int (Decimal.Neg x)).
  rewrite parse_index_of_int. simpl. unfold Z.of_uint.
  by rewrite of_uint_iter_D0_l.
Qed.

(** The padded form of an index reads back as the index, for every
    width. *)
Lemma parse_index_zfill (i width : Z) :
  parse_index (zfill (str i) width) = Some i.
Proof.
  unfold str, zfill.
  destruct (width <=? len _).
  { by rewrite parse_index_of_int, DecimalZ.of_to. }
  set (n := Z.to_nat _). clearbody n.
  transitivity (Some (Z.of_int (Z.to_int i))); [|by rewrite DecimalZ.of_to].
  destruct (Z.to_int i) as [d|d].
  - destruct d; simpl NilEmpty.string_of_int; cbn match.
    1: { rewrite <- (append_nil_r (zeros n)).
         exact (parse_index_uint n Decimal.Nil). }
    all: cbn [Ascii.eqb Bool.eqb orb].
    1: exact (parse_index_uint n (Decimal.D0 d)).
    1: exact (parse_index_uint n (Decimal.D1 d)).
    1: exact (parse_index_uint n (Decimal.D2 d)).
    1: exact (parse_index_uint n (Decimal.D3 d)).
    1: exact (parse_index_uint n (Decimal.D4 d)).
    1: exact (parse_index_uint n (Decimal.D5 d)).
    1: exact (parse_index_uint n (Decimal.D6 d)).
    1: exact (parse_index_uint n (Decimal.D7 d)).
    1: exact (parse_index_uint n (Decimal.D8 d)).
    exact (parse_index_uint n (Decimal.D9 d)).
  - simpl NilEmpty.string_of_int. cbn match. cbn [Ascii.eqb Bool.eqb orb].
    apply parse_index_neg_uint.
Qed.

Lemma zeros_lacks_underscore (n : nat) : lacks_char "_" (zeros n) = true.
Proof. induction n; simpl; auto. Qed.

Lemma lacks_char_app (x : ascii) (a b : string) :
  lacks_char x (a +:+ b) = lacks_char x a && lacks_char x b.
Proof.
  induction a as [|c a IH]; [done|].
  rewrite append_cons. simpl. rewrite IH. by rewrite andb_assoc.
Qed.

Lemma string_of_uint_lacks_underscore (d : Decimal.uint) :
  lacks_char "_" (NilEmpty.string_of_uint d) = true.
Proof. induction d; simpl; auto. Qed.

Lemma str_lacks_underscore (i : Z) : lacks_char "_" (str i) = true.
Proof.
  unfold str. destruct (Z.to_int i); simpl;
    apply string_of_uint_lacks_underscore.
Qed.

Lemma zfill_lacks_underscore (s : string) (width : Z) :
  lacks_char "_" s = true → lacks_char "_" (zfill s width) = true.
Proof.
  intros Hs. unfold zfill. destruct (width <=? len s); [done|].
  destruct s as [|c s']; [apply zeros_lacks_underscore|].
  simpl in Hs. apply andb_true_iff in Hs as [Hc Hs'].
  destruct (_ || _).
  - simpl. rewrite Hc, lacks_char_app, zeros_lacks_underscore, Hs'. done.
  - rewrite lacks_char_app, zeros_lacks_underscore. simpl. by rewrite Hc, Hs'.
Qed.

(** Two strings joined by "_" to suffixes that hold no "_" are equal only
    when both parts are. *)
Lemma key_split (a b x y : string) :
  lacks_char "_" x = true → lacks_char "_" y = true →
  a +:+ "_" +:+ x = b +:+ "_" +:+ y → a = b ∧ x = y.
Proof.
  intros Hx Hy. revert b. induction a as [|c a IH]; intros [|c' b] H.
  - rewrite !append_nil_l, !append_cons, !append_nil_l in H. by injection H.
  - rewrite append_nil_l, !append_cons, append_nil_l in H.
    injection H as Hc Hrest. rewrite ?append_nil_l in Hrest. subst x.
    rewrite lacks_char_app in Hx. simpl in Hx.
    by rewrite andb_false_r in Hx.
  - rewrite append_nil_l, !append_cons, append_nil_l in H.
    injection H as Hc Hrest. rewrite ?append_nil_l in Hrest. subst y.
    rewrite lacks_char_app in Hy. simpl in Hy.
    by rewrite andb_false_r in Hy.
  - rewrite !append_cons in H. injection H as -> H.
    destruct (IH b H) as [-> ->]. done.
Qed.

(** Distinct (source, index) pairs name distinct record files. *)
Theorem fileid_inj (id1 id2 : string) (i j : Z) :
  fileid id1 i = fileid id2 j → id1 = id2 ∧ i = j.
Proof.
  unfold fileid. intros H.
  apply key_split in H as [-> H];
    [|by apply zfill_lacks_underscore, str_lacks_underscore..].
  split; [done|].
  pose proof (parse_index_zfill i 4) as Hi. rewrite H in Hi.
  rewrite parse_index_zfill in Hi. by injection Hi.
Qed.

Lemma fileid_inj_witness : "techcrunch" = "techcrunch" ∧ 8 = 8.
Proof. apply (fileid_inj "techcrunch" "techcrunch" 8 8). reflexivity. Defined.

(** ** The fetch stage *)

Lemma process_result_unmapped (e : ArticleExtractor.t) (r : ArticleExtractor.crawl_result) w :
  ArticleExtractor.map e !! ArticleExtractor.result_url r = None →
  ArticleExtractor.process_result e r w = (Ret tt, w).
Proof. intros Hm. unfold ArticleExtractor.process_result. run. by rewrite Hm. Qed.

(** One step of the fetch loop: nothing, or one record written under the
    key of an allocated index. *)
Lemma process_result_cases (e : ArticleExtractor.t) (r : ArticleExtractor.crawl_result) w :
  ArticleExtractor.process_result e r w = (Ret tt, w)
  ∨ ∃ i data,
      ArticleExtractor.map e !! ArticleExtractor.result_url r = Some i
      ∧ ArticleExtractor.process_result e r w
        = (Ret tt, set_articles_dir <[fileid (ArticleExtractor.id e) i := data]> w).
Proof.
  destruct (ArticleExtractor.map e !! ArticleExtractor.result_url r) as [i|] eqn:Hm.
  - right. exists i. eexists. split; [done|].
    unfold ArticleExtractor.process_result. run. rewrite Hm. reflexivity.
  - left. by apply process_result_unmapped.
Qed.

(** The fetch stage returns, touches nothing but article records, and
    writes a record only under the key of an index that the allocator gave
    to the URL of a successful result; results that failed, or whose URL is
    not in the delta, leave the world as it is. *)
Theorem extract_articles_frame (e : ArticleExtractor.t)
    (results : list ArticleExtractor.crawl_result) w :
  let r := ArticleExtractor.extract_articles e results w in
  r.1 = Ret tt
  ∧ urls_dir r.2 = urls_dir w
  ∧ new_urls_dir r.2 = new_urls_dir w
  ∧ map_file r.2 = map_file w
  ∧ llm_log r.2 = llm_log w
  ∧ (∀ key,
       (∀ x i, x ∈ results → ArticleExtractor.result_success x = true →
               ArticleExtractor.map e !! ArticleExtractor.result_url x = Some i →
               key ≠ fileid (ArticleExtractor.id e) i) →
       articles_dir r.2 !! key = articles_dir w !! key)
  ∧ ((∀ x, x ∈ results →
           ArticleExtractor.result_success x = false
           ∨ ArticleExtractor.map e !! ArticleExtractor.result_url x = None) →
     r.2 = w).
Proof.
  revert w. induction results as [|x results IH]; intros w; simpl.
  { by split_and!. }
  unfold mbind, M_bind.
  assert (∃ w1, (if ArticleExtractor.result_success x
                 then ArticleExtractor.process_result e x
                 else mret tt) w = (Ret tt, w1)
          ∧ urls_dir w1 = urls_dir w ∧ new_urls_dir w1 = new_urls_dir w
          ∧ map_file w1 = map_file w ∧ llm_log w1 = llm_log w
          ∧ (∀ key,
               (∀ i, ArticleExtractor.result_success x = true →
                     ArticleExtractor.map e !! ArticleExtractor.result_url x = Some i →
                     key ≠ fileid (ArticleExtractor.id e) i) →
               articles_dir w1 !! key = articles_dir w !! key)
          ∧ (ArticleExtractor.result_success x = false
             ∨ ArticleExtractor.map e !! ArticleExtractor.result_url x = None →
             w1 = w)) as (w1 & Hstep & Hu & Hn & Hm & Hl & Ha & Hskip).
  { destruct (ArticleExtractor.result_success x) eqn:Hs.
    - destruct (process_result_cases e x w) as [Hr|(i & data & Hi & Hr)].
      + exists w. rewrite Hr. by split_and!.
      + eexists. rewrite Hr. split; [reflexivity|]. simpl. split_and!; try done.
        * intros key Hkey. rewrite lookup_insert_ne; [done|].
          intros Heq. by apply (Hkey i).
        * intros [?|Hnone]; [done|]. congruence.
    - exists w. by split_and!. }
  rewrite Hstep.
  destruct (IH w1) as (Hret & Hu' & Hn' & Hm' & Hl' & Ha' & Hskip').
  split_and!; try congruence.
  - intros key Hkey. rewrite Ha'.
    + apply Ha. intros i Hs Hi. apply (Hkey x i); [set_solver|done..].
    + intros y i Hy. apply Hkey. set_solver.
  - intros Hall. rewrite Hskip'.
    + apply Hskip. apply Hall. set_solver.
    + intros y Hy. apply Hall. set_solver.
Qed.

(** A successful result for a URL of the delta replaces the record of that
    URL by a fresh one: [summary], [keywords], [tags] and [subtags] are gone
    and the title is empty, whatever the record held before; the content is
    the markdown when it is non-empty, else the html. *)
Theorem refetch_resets_record (e : ArticleExtractor.t) url md html i w :
  ArticleExtractor.map e !! url = Some i →
  let key := fileid (ArticleExtractor.id e) i in
  let r := ArticleExtractor.process_result e
             (ArticleExtractor.CrawlResult url md html true) w in
  ∃ data,
    r = (Ret tt, set_articles_dir <[key := data]> w)
    ∧ dom data = {[ "url"; "html"; "path"; "title"; "date" ]}
    ∧ data !! "url" = Some (JStr url)
    ∧ data !! "path" = Some (JStr key)
    ∧ data !! "title" = Some (JStr "")
    ∧ data !! "html"
      = Some (JStr (match md with
                    | Some m => if String.eqb m "" then default "" html else m
                    | None => default "" html
                    end)).
Proof.
  intros Hm key r. subst r key.
  rewrite (process_result_mapped e url md html i w Hm).
  unfold ArticleExtractor.save_json, write_article, modify.
  eexists. split; [reflexivity|]. split_and!; try done.
  rewrite lookup_insert_ne by done. rewrite lookup_insert_eq.
  do 2 f_equal. unfold ArticleExtractor.or_str.
  destruct md as [m|]; [destruct (String.eqb m "")|];
    destruct html as [h|]; try done;
    destruct (String.eqb_spec h ""); by subst.
Qed.

Lemma refetch_resets_record_witness :
  ∃ data,
    articles_dir
      (ArticleExtractor.process_result refetch_extractor
         (ArticleExtractor.CrawlResult "a.com/3" (Some "") (Some "<p>text</p>") true)
         records_world).2 !! "techcrunch_0008" = Some data
    ∧ data !! "summary" = None
    ∧ data !! "html" = Some (JStr "<p>text</p>").
Proof.
  destruct (refetch_resets_record refetch_extractor
              "a.com/3" (Some "") (Some "<p>text</p>") 8 records_world eq_refl)
    as (data & Hr & Hdom & _ & _ & _ & Hhtml).
  exists data. split_and!.
  - rewrite Hr. simpl. apply lookup_insert_eq.
  - apply not_elem_of_dom. rewrite Hdom. compute_done.
  - exact Hhtml.
Defined.

(** With a repeated URL in the delta file the URL gets the index of its
    last occurrence, and the counter still advances by the length of the
    list: the indices of the earlier occurrences are never used. *)
Theorem map_urls_last_occurrence today conf sid k delta (p : nat) url w :
  conf_id conf = Some sid → counter conf = Some k →
  new_urls_dir w !! sid = Some delta →
  delta !! p = Some url →
  (∀ q : nat, (p < q)%nat → delta !! q ≠ Some url) →
  ∃ e, ArticleExtractor.init today conf w = (Ret e, w)
       ∧ ArticleExtractor.map e !! url = Some (k + Z.of_nat p + 1)
       ∧ ArticleExtractor.article_cnt e = k + Z.of_nat (length delta)
       ∧ size (ArticleExtractor.map e) = size (list_to_set delta : gset string).
Proof.
  intros Hid Hk Hdelta Hp Hlast.
  rewrite (extractor_init_spec today conf sid k w Hid Hk), Hdelta. simpl.
  eexists. split; [reflexivity|]. simpl. split_and!; [|done|].
  - assert (∀ (l : list string) (s : Z) (m : gmap string Z) (n : nat),
              l !! n = Some url → (∀ q : nat, (n < q)%nat → l !! q ≠ Some url) →
              foldl (λ m '(i, u), <[u := k + i]> m) m (enumerate l s) !! url
              = Some (k + (s + Z.of_nat n))) as Hgen.
    { induction l as [|x l IH]; intros s m n Hn Hl; [done|].
      destruct n as [|n]; simpl in *.
      - injection Hn as ->. rewrite map_urls_loop_notin.
        + rewrite lookup_insert_eq. f_equal. lia.
        + intros Hin. apply list_elem_of_lookup in Hin as [q Hq].
          apply (Hl (S q)); [lia|done].
      - rewrite (IH _ _ n Hn).
        + f_equal. lia.
        + intros q Hq. apply (Hl (S q)). lia. }
    rewrite (Hgen delta 1 ∅ p Hp Hlast). f_equal. lia.
  - rewrite <- !size_dom. f_equal. rewrite map_urls_loop_dom. set_solver.
Qed.

Lemma map_urls_last_occurrence_witness :
  ∃ e, ArticleExtractor.init "2025-01-01" techcrunch_conf repeated_delta_world
       = (Ret e, repeated_delta_world)
       ∧ ArticleExtractor.map e !! "a.com/3" = Some 10
       ∧ ArticleExtractor.article_cnt e = 10.
Proof.
  destruct (map_urls_last_occurrence "2025-01-01" techcrunch_conf "techcrunch"
              7 ["a.com/3"; "a.com/4"; "a.com/3"] 2 "a.com/3"
              repeated_delta_world eq_refl eq_refl eq_refl eq_refl)
    as (e & Hinit & Hmap & Hcnt & _).
  { intros [|[|[|q]]] Hq; simpl; try lia; discriminate. }
  exists e. split; [exact Hinit|]. split; [exact Hmap | exact Hcnt].
Defined.

(** ** The stages address the records in the order of the allocation *)

Lemma stage_paths_lookup sid k n (p : nat) :
  (p < n)%nat → stage_paths sid k n !! p = Some (fileid sid (k + Z.of_nat p + 1)).
Proof.
  intros Hp. unfold stage_paths, range. rewrite list_lookup_fmap.
  rewrite lookup_seqZ_lt by lia. simpl. f_equal. f_equal. lia.
Qed.

Lemma stage_paths_length sid k n : length (stage_paths sid k n) = n.
Proof. unfold stage_paths, range. rewrite length_fmap, length_seqZ. lia. Qed.

Lemma summariser_init_spec template conf sid k delta w :
  conf_id conf = Some sid → counter conf = Some k →
  new_urls_dir w !! sid = Some delta →
  Summariser.init template conf w
  = (Ret (Summariser.Summariser sid k (stage_paths sid k (length delta))
            template), w).
Proof.
  intros Hid Hk Hd. unfold Summariser.init, as_int. unfold counter in Hk.
  rewrite Hid, Hk. run. rewrite Hd. run. by rewrite Hd.
Qed.

Lemma dbhandler_init_spec conf sid k delta w :
  conf_id conf = Some sid → counter conf = Some k →
  new_urls_dir w !! sid = Some delta →
  DBHandler.init conf w
  = (Ret (DBHandler.DBHandler sid k (stage_paths sid k (length delta))), w).
Proof.
  intros Hid Hk Hd. unfold DBHandler.init, as_int. unfold counter in Hk.
  rewrite Hid, Hk. run. rewrite Hd. run. by rewrite Hd.
Qed.

Lemma tagger_init_spec proper common conf sid k delta w :
  conf_id conf = Some sid → counter conf = Some k →
  new_urls_dir w !! sid = Some delta →
  Tagger.init (Some (Tagger.Taxonomy (Some proper) (Some common))) conf w
  = (Ret (Tagger.Tagger sid k (stage_paths sid k (length delta))
            proper common), w).
Proof.
  intros Hid Hk Hd. unfold Tagger.init, as_int. unfold counter in Hk.
  rewrite Hid, Hk. run. rewrite Hd. run. by rewrite Hd.
Qed.

Lemma extractor_init_lookup today conf sid k delta w :
  conf_id conf = Some sid → counter conf = Some k →
  new_urls_dir w !! sid = Some delta → NoDup delta →
  ∃ e, ArticleExtractor.init today conf w = (Ret e, w)
       ∧ ∀ (p : nat) url, delta !! p = Some url →
           ArticleExtractor.map e !! url = Some (k + Z.of_nat p + 1).
Proof.
  intros Hid Hk Hd Hnd.
  rewrite (extractor_init_spec today conf sid k w Hid Hk), Hd. simpl.
  eexists. split; [reflexivity|]. simpl. intros p url Hp.
  rewrite (map_urls_loop_lookup _ delta 1 ∅ p url Hnd Hp). f_equal. lia.
Qed.

(** The Summarize, Tag and Persist stages list the same record files, and
    the file at position [p] of the list is the one under which the fetch
    stage saves the URL at position [p] of the delta. *)
Theorem stage_files_follow_allocation today template proper common conf sid k delta w :
  conf_id conf = Some sid → counter conf = Some k →
  new_urls_dir w !! sid = Some delta → NoDup delta →
  ∃ e s d t,
    ArticleExtractor.init today conf w = (Ret e, w)
    ∧ Summariser.init template conf w = (Ret s, w)
    ∧ DBHandler.init conf w = (Ret d, w)
    ∧ Tagger.init (Some (Tagger.Taxonomy (Some proper) (Some common))) conf w
      = (Ret t, w)
    ∧ DBHandler.new_filepaths d = Summariser.new_filepaths s
    ∧ Tagger.new_filepaths t = Summariser.new_filepaths s
    ∧ length (Summariser.new_filepaths s) = length delta
    ∧ ∀ (p : nat) url, delta !! p = Some url →
        ∃ i, ArticleExtractor.map e !! url = Some i
             ∧ Summariser.new_filepaths s !! p = Some (fileid sid i).
Proof.
  intros Hid Hk Hd Hnd.
  destruct (extractor_init_lookup today conf sid k delta w Hid Hk Hd Hnd)
    as (e & He & Hmap).
  rewrite (summariser_init_spec template conf sid k delta w Hid Hk Hd).
  rewrite (dbhandler_init_spec conf sid k delta w Hid Hk Hd).
  rewrite (tagger_init_spec proper common conf sid k delta w Hid Hk Hd).
  exists e. do 3 eexists. split_and!; try done; simpl.
  - apply stage_paths_length.
  - intros p url Hp. eexists. split; [by apply Hmap|].
    apply stage_paths_lookup. by eapply lookup_lt_Some.
Qed.

Lemma stage_files_follow_allocation_witness :
  ∃ e s,
    ArticleExtractor.init "2025-01-01" techcrunch_conf scenario_delta_world
    = (Ret e, scenario_delta_world)
    ∧ Summariser.init "Summarise: (article)" techcrunch_conf scenario_delta_world
      = (Ret s, scenario_delta_world)
    ∧ ArticleExtractor.map e !! "a.com/4" = Some 9
    ∧ Summariser.new_filepaths s !! 1%nat = Some "techcrunch_0009".
Proof.
  destruct (stage_files_follow_allocation "2025-01-01" "Summarise: (article)"
              [] [] techcrunch_conf "techcrunch" 7 ["a.com/3"; "a.com/4"]
              scenario_delta_world eq_refl eq_refl eq_refl ltac:(compute_done))
    as (e & s & d & t & He & Hs & _ & _ & _ & _ & _ & Hp).
  exists e, s. split; [exact He|]. split; [exact Hs|].
  destruct (Hp 1%nat "a.com/4" eq_refl) as (i & Hi & Hf).
  assert (i = 9) as ->.
  { destruct (extractor_init_lookup "2025-01-01" techcrunch_conf "techcrunch"
                7 ["a.com/3"; "a.com/4"] scenario_delta_world eq_refl eq_refl
                eq_refl ltac:(compute_done)) as (e' & He' & Hm').
    rewrite He in He'. injection He' as <-.
    specialize (Hm' 1%nat "a.com/4" eq_refl). rewrite Hi in Hm'.
    by injection Hm'. }
  split; [exact Hi | exact Hf].
Defined.

(** ** More on the Summarize stage *)

Section summarise_more.
Variable llm_invoke : string → exn + string.
Variable json_loads : string → option json.

Lemma loads_world s w : (Summariser.loads json_loads s w).2 = w.
Proof. unfold Summariser.loads. by destruct (json_loads s). Qed.

(** [llm_call] leaves one more entry in the log and nothing else. *)
Lemma llm_call_world (self : Summariser.t) text w :
  (Summariser.llm_call llm_invoke json_loads self text w).2
  = log_llm (Summariser.generate_summary_message self text) w.
Proof.
  rewrite llm_call_spec.
  destruct (llm_invoke _) as [e|resp]; [done|].
  destruct (extract_between_backticks resp) as [|c rest]; [done|].
  destruct (Ascii.eqb c "j"); apply loads_world.
Qed.

(** The record that [process_article] writes from the parsed answer. *)
Lemma process_article_run (self : Summariser.t) filename data html w :
  articles_dir w !! filename = Some data →
  data !! "html" = Some (JStr html) →
  String.eqb (strip html) "" = false →
  truthy (default (JStr "") (data !! "summary")) = false →
  let w1 := log_llm (Summariser.generate_summary_message self html) w in
  Summariser.process_article llm_invoke json_loads self filename w
  = match (Summariser.llm_call llm_invoke json_loads self html w).1 with
    | Ret (JObj o) =>
        (Ret tt,
         set_articles_dir
           <[filename :=
               delete "html"
                 (<["keywords" := default (JArr []) (Summariser.obj_lookup "keywords" o)]>
                    (<["title" := default (JStr "") (Summariser.obj_lookup "title" o)]>
                       (<["summary" := default (JStr "") (Summariser.obj_lookup "summary" o)]>
                          data)))]> w1)
    | _ => (Ret tt, w1)
    end.
Proof.
  intros Hf Hh Hs Ht w1. unfold Summariser.process_article.
  unfold mbind, M_bind, try_except, try_except_not_found, read_article,
    mret, M_ret.
  rewrite Hf, Hh. cbn [from_option]. unfold id at 1. rewrite Hs, Ht.
  pose proof (llm_call_world self html w) as Hw. fold w1 in Hw.
  destruct (Summariser.llm_call llm_invoke json_loads self html w) as [o w'].
  simpl in Hw. subst w'. simpl.
  destruct o as [[| | | | |o]|e]; try done.
Qed.

(** On a fetched record whose answer parses to a JSON object the stage
    makes one LLM call with the filled template, stores [summary], [title]
    and [keywords] from the object (the defaults for missing members),
    removes [html] and keeps every other field; no other file changes. *)
Theorem summarise_success (self : Summariser.t) filename data html resp c rest o w :
  articles_dir w !! filename = Some data →
  data !! "html" = Some (JStr html) →
  String.eqb (strip html) "" = false →
  truthy (default (JStr "") (data !! "summary")) = false →
  let prompt := Summariser.generate_summary_message self html in
  llm_invoke prompt = inr resp →
  extract_between_backticks resp = String c rest →
  json_loads (if Ascii.eqb c "j" then drop_chars 4 (String c rest)
              else String c rest) = Some (JObj o) →
  ∃ data',
    Summariser.process_article llm_invoke json_loads self filename w
    = (Ret tt, set_articles_dir <[filename := data']> (log_llm prompt w))
    ∧ data' !! "summary" = Some (default (JStr "") (Summariser.obj_lookup "summary" o))
    ∧ data' !! "title" = Some (default (JStr "") (Summariser.obj_lookup "title" o))
    ∧ data' !! "keywords" = Some (default (JArr []) (Summariser.obj_lookup "keywords" o))
    ∧ data' !! "html" = None
    ∧ ∀ key, key ∉ ["summary"; "title"; "keywords"; "html"] →
             data' !! key = data !! key.
Proof.
  intros Hf Hh Hs Ht prompt Hllm Hext Hjson.
  rewrite (process_article_run self filename data html w Hf Hh Hs Ht).
  rewrite llm_call_spec. fold prompt. rewrite Hllm, Hext.
  assert (Summariser.loads json_loads
            (if Ascii.eqb c "j" then drop_chars 4 (String c rest) else String c rest)
            (log_llm prompt w) = (Ret (JObj o), log_llm prompt w)) as Hl.
  { unfold Summariser.loads. by rewrite Hjson. }
  assert ((if Ascii.eqb c "j"
           then Summariser.loads json_loads (drop_chars 4 (String c rest)) (log_llm prompt w)
           else Summariser.loads json_loads (String c rest) (log_llm prompt w))
          = (Ret (JObj o), log_llm prompt w)) as ->.
  { by destruct (Ascii.eqb c "j"). }
  simpl. eexists. split; [reflexivity|]. split_and!.
  - rewrite lookup_delete_ne by done.
    by rewrite !lookup_insert_ne, lookup_insert_eq by done.
  - rewrite lookup_delete_ne by done.
    by rewrite lookup_insert_ne, lookup_insert_eq by done.
  - rewrite lookup_delete_ne by done. by rewrite lookup_insert_eq.
  - apply lookup_delete_eq.
  - intros key Hkey.
    rewrite lookup_delete_ne by set_solver.
    rewrite !lookup_insert_ne by set_solver. done.
Qed.

(** Once the stage has written a record it never works on it again: the
    next run makes no LLM call and no write, also when the stored summary is
    empty, because the [html] field is gone. *)
Theorem summarised_record_is_final (self : Summariser.t) filename data html w :
  articles_dir w !! filename = Some data →
  data !! "html" = Some (JStr html) →
  String.eqb (strip html) "" = false →
  truthy (default (JStr "") (data !! "summary")) = false →
  let r := Summariser.process_article llm_invoke json_loads self filename w in
  articles_dir r.2 ≠ articles_dir w →
  Summariser.process_article llm_invoke json_loads self filename r.2 = (Ret tt, r.2).
Proof.
  intros Hf Hh Hs Ht r Hchanged. subst r.
  rewrite (process_article_run self filename data html w Hf Hh Hs Ht) in Hchanged |- *.
  destruct (Summariser.llm_call llm_invoke json_loads self html w).1
    as [[| | | | |o]|e]; try done.
  unfold Summariser.process_article.
  unfold mbind, M_bind, try_except, try_except_not_found, read_article,
    mret, M_ret. simpl.
  rewrite lookup_insert_eq. cbn [from_option].
  rewrite lookup_delete_eq. cbn [from_option]. unfold id at 1. done.
Qed.

(** A missing record file is skipped; one that does not parse is not. *)
Lemma process_article_missing (self : Summariser.t) filename w :
  articles_dir w !! filename = None → filename ∉ unparsable w →
  Summariser.process_article llm_invoke json_loads self filename w = (Ret tt, w).
Proof.
  intros Hf Hu. unfold Summariser.process_article.
  unfold mbind, M_bind, try_except, try_except_not_found, read_article,
    mret, M_ret.
  rewrite Hf. by rewrite decide_False.
Qed.

Lemma process_article_unparsable (self : Summariser.t) filename w :
  articles_dir w !! filename = None → filename ∈ unparsable w →
  Summariser.process_article llm_invoke json_loads self filename w
  = (Raise JSONDecodeError, w).
Proof.
  intros Hf Hu. unfold Summariser.process_article.
  unfold mbind, M_bind, try_except, try_except_not_found, read_article,
    mret, M_ret.
  rewrite Hf. by rewrite decide_True.
Qed.

Lemma process_article_guarded (self : Summariser.t) filename data w :
  articles_dir w !! filename = Some data →
  Summariser.process_article llm_invoke json_loads self filename w
  = match default (JStr "") (data !! "html") with
    | JStr html =>
        if String.eqb (strip html) "" then (Ret tt, w)
        else if truthy (default (JStr "") (data !! "summary")) then (Ret tt, w)
        else Summariser.process_article llm_invoke json_loads self filename w
    | _ => (Raise AttributeError, w)
    end.
Proof.
  intros Hf.
  destruct (default (JStr "") (data !! "html")) as [| | |html| |] eqn:Hh.
  all: try (unfold Summariser.process_article;
            unfold mbind, M_bind, try_except, try_except_not_found, read_article,
    mret, M_ret, raise;
            rewrite Hf; cbn beta iota; rewrite Hh; reflexivity).
  destruct (String.eqb (strip html) "") eqn:Hs;
    [|destruct (truthy _) eqn:Ht; [|done]].
  all: unfold Summariser.process_article;
    unfold mbind, M_bind, try_except, try_except_not_found, read_article,
    mret, M_ret, raise;
    rewrite Hf; cbn beta iota; rewrite Hh, Hs, ?Ht; reflexivity.
Qed.

(** Whatever the LLM and the parser do, the stage touches no URL file and
    no config, changes no record but its own, and makes at most one LLM
    call. It returns normally but in two cases, in which it raises before
    anything is changed: the record file does not parse ([JSONDecodeError],
    which the [except FileNotFoundError] lets through), or [html] holds
    something that is no string ([AttributeError]). *)
Theorem process_article_frame (self : Summariser.t) filename w :
  let r := Summariser.process_article llm_invoke json_loads self filename w in
  urls_dir r.2 = urls_dir w
  ∧ new_urls_dir r.2 = new_urls_dir w
  ∧ map_file r.2 = map_file w
  ∧ unparsable r.2 = unparsable w
  ∧ (∀ key, key ≠ filename → articles_dir r.2 !! key = articles_dir w !! key)
  ∧ (llm_log r.2 = llm_log w ∨ ∃ prompt, llm_log r.2 = llm_log w ++ [prompt])
  ∧ (r.1 = Ret tt
     ∨ (r.1 = Raise JSONDecodeError ∧ r.2 = w
        ∧ articles_dir w !! filename = None ∧ filename ∈ unparsable w)
     ∨ (r.1 = Raise AttributeError ∧ r.2 = w
        ∧ ∃ data v, articles_dir w !! filename = Some data
                    ∧ data !! "html" = Some v ∧ ∀ s, v ≠ JStr s))
  ∧ (articles_dir w !! filename = None → filename ∈ unparsable w →
     r.1 = Raise JSONDecodeError).
Proof.
  intros r.
  assert (∀ x : outcome unit * world,
            (articles_dir w !! filename = None → filename ∉ unparsable w) →
            x = (Ret tt, w) →
            urls_dir x.2 = urls_dir w ∧ new_urls_dir x.2 = new_urls_dir w
            ∧ map_file x.2 = map_file w
            ∧ unparsable x.2 = unparsable w
            ∧ (∀ key, key ≠ filename → articles_dir x.2 !! key = articles_dir w !! key)
            ∧ (llm_log x.2 = llm_log w ∨ ∃ prompt, llm_log x.2 = llm_log w ++ [prompt])
            ∧ (x.1 = Ret tt
               ∨ (x.1 = Raise JSONDecodeError ∧ x.2 = w
                  ∧ articles_dir w !! filename = None ∧ filename ∈ unparsable w)
               ∨ (x.1 = Raise AttributeError ∧ x.2 = w
                  ∧ ∃ data v, articles_dir w !! filename = Some data
                              ∧ data !! "html" = Some v ∧ ∀ s, v ≠ JStr s))
            ∧ (articles_dir w !! filename = None → filename ∈ unparsable w →
               x.1 = Raise JSONDecodeError)) as Hnoop.
  { intros x Hno ->. simpl. split_and!; auto. intros H1 H2. by destruct (Hno H1). }
  destruct (articles_dir w !! filename) as [data|] eqn:Hf.
  2: { destruct (decide (filename ∈ unparsable w)) as [Hu|Hu].
       - subst r. rewrite (process_article_unparsable self filename w Hf Hu).
         simpl. split_and!; auto. right; left. by split_and!.
       - apply Hnoop; [done|]. by apply process_article_missing. }
  pose proof (process_article_guarded self filename data w Hf) as Hg.
  fold r in Hg.
  destruct (data !! "html") as [v|] eqn:Hh; simpl in Hg.
  2: { by apply Hnoop. }
  destruct v as [| | |html| |].
  1-3, 5-6: rewrite Hg; simpl; split_and!; auto; try done;
    right; right; split_and!; auto; exists data; eexists; split_and!; eauto.
  destruct (String.eqb (strip html) "") eqn:Hs; [by apply Hnoop|].
  destruct (truthy (default (JStr "") (data !! "summary"))) eqn:Ht;
    [by apply Hnoop|].
  clear Hg. subst r.
  rewrite (process_article_run self filename data html w Hf Hh Hs Ht).
  destruct (Summariser.llm_call llm_invoke json_loads self html w).1
    as [[| | | | |o]|e]; simpl; split_and!; eauto; try done.
  intros key Hkey. by rewrite lookup_insert_ne.
Qed.

End summarise_more.

(** ** The prompt *)

(** Only the first character of the placeholder is "(". *)
Lemma prefix_lacking_app (t a b : string) :
  lacks_char "(" t = true →
  String.prefix t (a +:+ String "(" b) = true → String.prefix t a = true.
Proof.
  revert a. induction t as [|x t IH]; intros a Ht Hp; [by destruct a|].
  simpl in Ht. apply andb_true_iff in Ht as [Hx Ht].
  apply negb_true_iff, Ascii.eqb_neq in Hx.
  destruct a as [|y a].
  - rewrite append_nil_l in Hp. simpl in Hp.
    by destruct (ascii_dec x "(").
  - rewrite append_cons in Hp. simpl in Hp |- *.
    destruct (ascii_dec x y); [|done]. by apply IH.
Qed.

(** An occurrence of the placeholder that starts in [pre] lies in [pre]. *)
Lemma prefix_placeholder_app (pre post : string) :
  pre ≠ "" →
  String.prefix "(article)" (pre +:+ "(article)" +:+ post) = true →
  String.prefix "(article)" pre = true.
Proof.
  intros Hne Hp. destruct pre as [|c pre]; [done|].
  rewrite append_cons in Hp.
  change (String.prefix "(article)" (String c (pre +:+ "(article)" +:+ post)))
    with (if ascii_dec "(" c
          then String.prefix "article)" (pre +:+ String "(" ("article)" +:+ post))
          else false) in Hp.
  change (String.prefix "(article)" (String c pre))
    with (if ascii_dec "(" c then String.prefix "article)" pre else false).
  destruct (ascii_dec "(" c); [|done].
  by apply (prefix_lacking_app "article)" pre ("article)" +:+ post)).
Qed.

Lemma str_in_cons_false (sub : string) (c : ascii) (s : string) :
  str_in sub (String c s) = false →
  String.prefix sub (String c s) = false ∧ str_in sub s = false.
Proof.
  unfold str_in. cbn [String.index].
  destruct (String.prefix sub (String c s)); [done|].
  by destruct (String.index 0 sub s).
Qed.

Lemma drop_chars_length (n : nat) (s : string) :
  String.length (drop_chars n s) = (String.length s - n)%nat.
Proof.
  revert s. induction n as [|n IH]; intros [|c s]; simpl; auto; lia.
Qed.

Lemma prefix_length (a b : string) :
  String.prefix a b = true → (String.length a ≤ String.length b)%nat.
Proof.
  revert b. induction a as [|x a IH]; intros [|y b]; simpl; try done; try lia.
  destruct (ascii_dec x y); [|done]. intros H. apply IH in H. lia.
Qed.

(** The scan does not depend on its bound once the bound covers the
    string. *)
Lemma replace_aux_fuel (f1 f2 : nat) (s new : string) :
  (String.length s ≤ f1)%nat → (String.length s ≤ f2)%nat →
  replace_aux f1 s "(article)" new = replace_aux f2 s "(article)" new.
Proof.
  revert f2 s. induction f1 as [|f1 IH]; intros f2 s H1 H2.
  - destruct s; [|simpl in H1; lia]. by destruct f2.
  - destruct f2 as [|f2].
    { destruct s; [done|simpl in H2; lia]. }
    cbn [replace_aux].
    destruct (String.prefix "(article)" s) eqn:Hp.
    + f_equal. rewrite substring_drop_chars.
      pose proof (drop_chars_length (String.length "(article)") s) as Hl.
      pose proof (prefix_length _ _ Hp) as Hle. simpl in Hle, Hl.
      apply IH; simpl; lia.
    + destruct s as [|c s]; [done|]. f_equal. simpl in H1, H2. apply IH; lia.
Qed.

(** A template in which the placeholder does not occur is left as it is. *)
Lemma replace_aux_absent (fuel : nat) (s new : string) :
  str_in "(article)" s = false → replace_aux fuel s "(article)" new = s.
Proof.
  revert s. induction fuel as [|fuel IH]; intros s Hs; [done|].
  destruct s as [|c s]; [done|].
  apply str_in_cons_false in Hs as [Hp Hs].
  cbn [replace_aux]. rewrite Hp. by rewrite IH.
Qed.

(** The first occurrence is replaced and the scan goes on behind it. *)
Lemma replace_aux_first (fuel : nat) (pre post new : string) :
  str_in "(article)" pre = false → (String.length pre < fuel)%nat →
  replace_aux fuel (pre +:+ "(article)" +:+ post) "(article)" new
  = pre +:+ new +:+ replace_aux (fuel - String.length pre - 1) post "(article)" new.
Proof.
  revert fuel. induction pre as [|c pre IH]; intros fuel Hpre Hfuel.
  - destruct fuel as [|fuel]; [simpl in Hfuel; lia|].
    rewrite !append_nil_l. cbn [replace_aux].
    assert (String.prefix "(article)" ("(article)" +:+ post) = true) as ->.
    { apply String.prefix_correct. clear. simpl. f_equal.
      by destruct post. }
    rewrite substring_drop_chars.
    change (drop_chars (String.length "(article)") ("(article)" +:+ post))
      with post.
    simpl. by rewrite Nat.sub_0_r.
  - destruct fuel as [|fuel]; [simpl in Hfuel; lia|].
    apply str_in_cons_false in Hpre as [Hp Hpre].
    assert (String.prefix "(article)" (String c pre +:+ "(article)" +:+ post)
            = false) as Hp'.
    { destruct (String.prefix "(article)" (String c pre +:+ "(article)" +:+ post))
        eqn:E; [|done].
      apply prefix_placeholder_app in E; [congruence|done]. }
    rewrite append_cons in Hp' |- *. cbn [replace_aux]. rewrite Hp'.
    rewrite append_cons. f_equal.
    rewrite IH; [done|done|]. simpl in Hfuel. lia.
Qed.

Lemma append_length (a b : string) :
  String.length (a +:+ b) = (String.length a + String.length b)%nat.
Proof.
  induction a as [|c a IH]; [done|]. rewrite append_cons. simpl. by rewrite IH.
Qed.

(** The prompt is the template with the article text in the place of
    every occurrence of the placeholder, from left to right: a template in
    which "(article)" does not occur is sent as it is, without the article;
    in a template [pre ++ "(article)" ++ post] whose [pre] holds no
    occurrence, the occurrence becomes the text, inserted as it is (it is
    not scanned, also when it holds the placeholder), and the replacement
    goes on in [post]. *)
Theorem prompt_fills_placeholder (self : Summariser.t) (pre post text : string) :
  (str_in "(article)" (Summariser.prompt_template self) = false →
   Summariser.generate_summary_message self text = Summariser.prompt_template self)
  ∧ (str_in "(article)" pre = false →
     Summariser.prompt_template self = pre +:+ "(article)" +:+ post →
     Summariser.generate_summary_message self text
     = pre +:+ text +:+ replace post "(article)" text).
Proof.
  unfold Summariser.generate_summary_message, replace. split.
  - intros H. by apply replace_aux_absent.
  - intros Hpre ->. rewrite replace_aux_first.
    + do 2 f_equal. apply replace_aux_fuel; rewrite ?append_length; simpl; lia.
    + done.
    + rewrite append_length. lia.
Qed.

(** A template with parentheses of its own, and an article that holds the
    placeholder. *)
Lemma prompt_fills_placeholder_witness :
  Summariser.generate_summary_message json_prompt_summariser "see (article)"
  = "Return JSON (title, summary) for: see (article)".
Proof.
  apply (proj2 (prompt_fills_placeholder json_prompt_summariser
                  "Return JSON (title, summary) for: " "" "see (article)"));
    reflexivity.
Defined.

Lemma summarise_success_witness :
  ∃ data',
    articles_dir
      (Summariser.process_article fenced_llm object_loads scenario_summariser
         "techcrunch_0009" records_world).2 !! "techcrunch_0009" = Some data'
    ∧ data' !! "summary" = Some (JStr "A startup raised a round.")
    ∧ data' !! "keywords" = Some (JArr [])
    ∧ data' !! "html" = None
    ∧ data' !! "url" = Some (JStr "a.com/4").
Proof.
  destruct (summarise_success fenced_llm object_loads scenario_summariser
              "techcrunch_0009" fetched_record "Article body"
              "Here it is: ```json {} ``` Done." "j" "son {}"
              [("summary", JStr "A startup raised a round."); ("title", JStr "Round")]
              records_world eq_refl eq_refl eq_refl eq_refl eq_refl eq_refl eq_refl)
    as (data' & Hr & Hs & _ & Hk & Hh & Hother).
  exists data'. rewrite Hr. simpl. rewrite lookup_insert_eq.
  split_and!; [done | exact Hs | exact Hk | exact Hh |].
  rewrite Hother; [reflexivity|]. compute_done.
Defined.

Lemma summarised_record_is_final_witness :
  let r := Summariser.process_article fenced_llm object_loads scenario_summariser
             "techcrunch_0009" records_world in
  Summariser.process_article fenced_llm object_loads scenario_summariser
    "techcrunch_0009" r.2 = (Ret tt, r.2).
Proof.
  intros r.
  apply (summarised_record_is_final fenced_llm object_loads scenario_summariser
           "techcrunch_0009" fetched_record "Article body" records_world
           eq_refl eq_refl eq_refl eq_refl).
  intros Heq.
  apply (f_equal (λ m, m !! "techcrunch_0009" ≫= λ d, d !! "html")) in Heq.
  vm_compute in Heq. discriminate Heq.
Defined.

(** ** Discovery by xpath *)

Section discovery.
Variable urljoin : string → string → string.
Variable set_list : gset string → list string.
Hypothesis set_list_perm : ∀ s, set_list s ≡ₚ elements s.

Lemma fetch_urls_loop_voided url results urls :
  (∃ r, r ∈ results ∧ page_markdown r = true ∧ page_anchors r = []) →
  fetch_urls_loop urljoin url results urls = [].
Proof.
  revert urls. induction results as [|x results IH]; intros urls (r & Hr & Hm & Ha).
  { by apply elem_of_nil in Hr. }
  simpl. apply elem_of_cons in Hr as [<-|Hr].
  - by rewrite Hm, Ha.
  - destruct (page_markdown x); [destruct (page_anchors x)|]; [done|..];
      apply IH; eauto.
Qed.

Lemma fetch_urls_loop_all url results urls :
  (∀ r, r ∈ results → page_markdown r = true → page_anchors r ≠ []) →
  fetch_urls_loop urljoin url results urls
  = urls ++ mjoin ((λ r, if page_markdown r
                         then anchor_urls urljoin url (page_anchors r)
                         else []) <$> results).
Proof.
  revert urls. induction results as [|x results IH]; intros urls Hall; simpl.
  { by rewrite app_nil_r. }
  destruct (page_markdown x) eqn:Hm.
  - destruct (page_anchors x) as [|a l] eqn:Ha.
    { exfalso. apply (Hall x); [set_solver|done..]. }
    rewrite IH by (intros r Hr; apply Hall; set_solver).
    by rewrite app_assoc.
  - rewrite IH by (intros r Hr; apply Hall; set_solver). done.
Qed.

Lemma anchor_urls_spec url a_tags :
  anchor_urls urljoin url a_tags
  = urljoin url <$> omap (λ a, a ≫= λ href,
                                 if String.eqb href "" then None else Some href)
                         a_tags.
Proof.
  unfold anchor_urls.
  assert (∀ acc, foldl (λ urls a,
             match a with
             | Some href => if String.eqb href "" then urls
                            else urls ++ [urljoin url href]
             | None => urls
             end) acc a_tags
          = acc ++ (urljoin url <$> omap (λ a, a ≫= λ href,
                      if String.eqb href "" then None else Some href) a_tags)) as H.
  { induction a_tags as [|a l IH]; intros acc; simpl; [by rewrite app_nil_r|].
    rewrite IH. destruct a as [href|]; simpl; [|done].
    destruct (String.eqb href ""); simpl; [done|]. by rewrite <- app_assoc. }
  by rewrite H.
Qed.

(** [fetch_urls] gives up as soon as one rendered result has no element at
    the xpath: it returns the empty list, dropping the links of the results
    before it, and the scraper then persists an empty delta. Otherwise it
    returns, in order, [urljoin(url, href)] for every non-empty [href] of
    the rendered results. *)
Theorem fetch_urls_all_or_nothing conf sid xp u url results w :
  conf_id conf = Some sid → conf_xpath conf = Some xp → conf_url conf = Some u →
  ((∃ r, r ∈ results ∧ page_markdown r = true ∧ page_anchors r = []) →
   fetch_urls urljoin url results = []
   ∧ new_urls_dir
       (CustomScraper.reconcile set_list conf (fetch_urls urljoin url results) w).2
       !! sid = Some [])
  ∧ ((∀ r, r ∈ results → page_markdown r = true → page_anchors r ≠ []) →
     fetch_urls urljoin url results
     = mjoin ((λ r, if page_markdown r
                    then urljoin url <$>
                           omap (λ a, a ≫= λ href,
                                   if String.eqb href "" then None else Some href)
                                (page_anchors r)
                    else []) <$> results)).
Proof using set_list_perm.
  intros Hid Hxp Hu. split.
  - intros Hex. unfold fetch_urls.
    rewrite (fetch_urls_loop_voided url results [] Hex). split; [done|].
    by destruct (xpath_empty_candidates set_list set_list_perm conf sid xp u w
                   Hid Hxp Hu) as (_ & Hn & _).
  - intros Hall. unfold fetch_urls. rewrite fetch_urls_loop_all by done.
    simpl. f_equal. apply list_fmap_ext. intros _ r _.
    destruct (page_markdown r); [|done]. apply anchor_urls_spec.
Qed.

End discovery.

Lemma fetch_urls_all_or_nothing_witness :
  fetch_urls (λ base href, base +:+ href) "https://inc42.com"
    [PageResult true [Some "/buzz/1"; None; Some ""; Some "/buzz/2"];
     PageResult true []] = []
  ∧ fetch_urls (λ base href, base +:+ href) "https://inc42.com"
      [PageResult true [Some "/buzz/1"; None; Some ""; Some "/buzz/2"];
       PageResult false []]
    = ["https://inc42.com/buzz/1"; "https://inc42.com/buzz/2"].
Proof.
  destruct (fetch_urls_all_or_nothing (λ base href, base +:+ href) elements
              (λ s, reflexivity _) inc42_conf "inc42" "//h2/a"
              "https://inc42.com/buzz/" "https://inc42.com"
              [PageResult true [Some "/buzz/1"; None; Some ""; Some "/buzz/2"];
               PageResult true []] scenario_world eq_refl eq_refl eq_refl)
    as [Hvoid _].
  destruct (fetch_urls_all_or_nothing (λ base href, base +:+ href) elements
              (λ s, reflexivity _) inc42_conf "inc42" "//h2/a"
              "https://inc42.com/buzz/" "https://inc42.com"
              [PageResult true [Some "/buzz/1"; None; Some ""; Some "/buzz/2"];
               PageResult false []] scenario_world eq_refl eq_refl eq_refl)
    as [_ Hall].
  split.
  - apply Hvoid. exists (PageResult true []). split; [set_solver|done].
  - rewrite Hall; [reflexivity|].
    intros r Hr Hm. apply elem_of_cons in Hr as [->|Hr]; [done|].
    apply list_elem_of_singleton in Hr as ->. discriminate.
Defined.

(** ** Runs of the pipeline on the URL files and the counter *)

Section runs.
Variable set_list : gset string → list string.
Hypothesis set_list_perm : ∀ s, set_list s ≡ₚ elements s.

Lemma set_list_length (s : gset string) : length (set_list s) = size s.
Proof using set_list_perm. by rewrite (set_list_perm s). Qed.

(** Commit on the files and the counter of its source. *)
Lemma merge_files_effect di i md k w :
  conf_id di = Some i → map_file w = Some md → lookup_cnt i md = Some k →
  let n := Z.of_nat (length (default [] (new_urls_dir w !! i))) in
  let union := url_set (new_urls_dir w) i ∪ url_set (urls_dir w) i in
  ∃ w' md',
    merge_files set_list di w = (Ret tt, w')
    ∧ map_file w' = Some md'
    ∧ lookup_cnt i md' = Some (k + n)
    ∧ new_urls_dir w' !! i = Some (set_list union)
    ∧ urls_dir w' !! i = Some (default [] (urls_dir w !! i)).
Proof.
  intros Hid Hmap Hk n union.
  rewrite (merge_files_spec set_list di i w Hid). fold n. rewrite Hmap.
  destruct (0 <? n) eqn:Hpos.
  - destruct (bump_first_found i n md k Hk) as (md' & -> & Hi & _).
    do 2 eexists. split; [reflexivity|]. simpl.
    rewrite !lookup_insert_eq. done.
  - apply Z.ltb_ge in Hpos. assert (n = 0) as Hn by lia.
    do 2 eexists. split; [reflexivity|]. simpl.
    rewrite !lookup_insert_eq, Hk, Hn, Z.add_0_r. done.
Qed.

(** With a non-empty delta and no readable config file, commit raises
    after it has already replaced the DeltaSet file by the union. *)
Theorem commit_partial_on_missing_config di i delta w :
  conf_id di = Some i → new_urls_dir w !! i = Some delta → delta ≠ [] →
  map_file w = None →
  let r := merge_files set_list di w in
  r.1 = Raise (FileNotFoundError "sample_mapping.json")
  ∧ new_urls_dir r.2 !! i
    = Some (set_list (list_to_set delta ∪ url_set (urls_dir w) i))
  ∧ map_file r.2 = None.
Proof.
  intros Hid Hd Hne Hmap r. subst r.
  rewrite (merge_files_spec set_list di i w Hid), Hd, Hmap. simpl.
  destruct delta as [|x delta]; [done|]. simpl.
  by rewrite lookup_insert_eq.
Qed.

(** Commit is not idempotent: a second commit counts the whole union that
    the first one left in the DeltaSet file. *)
Theorem double_commit_recounts di i md k w :
  conf_id di = Some i → map_file w = Some md → lookup_cnt i md = Some k →
  let n := Z.of_nat (length (default [] (new_urls_dir w !! i))) in
  let union := url_set (new_urls_dir w) i ∪ url_set (urls_dir w) i in
  let w2 := (merge_files set_list di (merge_files set_list di w).2).2 in
  ∃ md2, map_file w2 = Some md2
         ∧ lookup_cnt i md2 = Some (k + n + Z.of_nat (size union))
         ∧ url_set (new_urls_dir w2) i = union.
Proof using set_list_perm.
  intros Hid Hmap Hk n union w2. subst w2.
  destruct (merge_files_effect di i md k w Hid Hmap Hk)
    as (w1 & md1 & Hr1 & Hm1 & Hk1 & Hn1 & Hu1).
  rewrite Hr1. simpl.
  destruct (merge_files_effect di i md1 (k + n) w1 Hid Hm1 Hk1)
    as (w2 & md2 & Hr2 & Hm2 & Hk2 & Hn2 & Hu2).
  rewrite Hr2. simpl. exists md2. split; [done|].
  rewrite Hn1 in Hk2. simpl in Hk2. rewrite set_list_length in Hk2.
  split; [done|].
  rewrite (url_set_lookup _ _ _ Hn2), set_list_set by done.
  rewrite (url_set_lookup _ _ _ Hn1), set_list_set by done.
  assert (url_set (urls_dir w1) i = url_set (urls_dir w) i) as ->.
  { unfold url_set at 1. by rewrite Hu1. }
  set_solver.
Qed.

(** A run of an RSS source never gets a delta: the constructor creates
    the missing URL files of the source, empty, and [update_file] raises
    [NameError] before it reads or writes anything. Both URL files keep what
    they held (a stale delta included), nothing else changes, and a second
    run raises in the same way and leaves the world as the first one left
    it. *)
Theorem rss_run_raises conf i rss w :
  conf_id conf = Some i → conf_rss conf = Some rss →
  let r := RssHandler.reconcile set_list conf w in
  r.1 = Raise (NameError "proxies")
  ∧ urls_dir r.2 !! i = Some (default [] (urls_dir w !! i))
  ∧ new_urls_dir r.2 !! i = Some (default [] (new_urls_dir w !! i))
  ∧ (∀ x, x ≠ i → urls_dir r.2 !! x = urls_dir w !! x)
  ∧ (∀ x, x ≠ i → new_urls_dir r.2 !! x = new_urls_dir w !! x)
  ∧ articles_dir r.2 = articles_dir w
  ∧ map_file r.2 = map_file w
  ∧ llm_log r.2 = llm_log w
  ∧ RssHandler.reconcile set_list conf r.2 = (Raise (NameError "proxies"), r.2).
Proof.
  intros Hid Hrss r.
  destruct (rss_reconcile_raises set_list conf rss i w Hrss Hid)
    as (w1 & Hr & Hu & Hn & Hfu & Hfn & Ha & Hm & Hl).
  subst r. rewrite Hr. simpl. split_and!; try done.
  unfold RssHandler.reconcile, RssHandler.init. rewrite Hrss, Hid. run.
  rewrite Hu. simpl. rewrite Hn. simpl. reflexivity.
Qed.

(** An xpath source never learns: reconcile does not write the cumulative
    file and commit writes the union to the DeltaSet file, so a second run on
    the same candidates computes the same delta again and the counter moves a
    second time. *)
Theorem xpath_run_twice conf i xp u md k C w :
  conf_id conf = Some i → conf_xpath conf = Some xp → conf_url conf = Some u →
  map_file w = Some md → lookup_cnt i md = Some k →
  let U := url_set (urls_dir w) i in
  let cand : gset string := list_to_set C in
  let w1 := (CustomScraper.reconcile set_list conf C w).2 in
  let w2 := (merge_files set_list conf w1).2 in
  let w3 := (CustomScraper.reconcile set_list conf C w2).2 in
  let w4 := (merge_files set_list conf w3).2 in
  url_set (new_urls_dir w1) i = cand ∖ U
  ∧ url_set (new_urls_dir w3) i = cand ∖ U
  ∧ url_set (urls_dir w4) i = U
  ∧ ∃ md4, map_file w4 = Some md4
           ∧ lookup_cnt i md4 = Some (k + 2 * Z.of_nat (size (cand ∖ U))).
Proof using set_list_perm.
  intros Hid Hxp Hu Hmap Hk U cand w1 w2 w3 w4. subst w4 w3 w2 w1.
  destruct (xpath_reconcile_spec set_list conf i xp u C w Hid Hxp Hu)
    as (w1 & Hr1 & Hn1 & Hu1 & _ & _ & _ & Hm1 & _).
  rewrite Hr1. simpl. rewrite <- Hm1 in Hmap.
  destruct (merge_files_effect conf i md k w1 Hid Hmap Hk)
    as (w2 & md2 & Hr2 & Hm2 & Hk2 & Hn2 & Hu2).
  rewrite Hr2. simpl.
  destruct (xpath_reconcile_spec set_list conf i xp u C w2 Hid Hxp Hu)
    as (w3 & Hr3 & Hn3 & Hu3 & _ & _ & _ & Hm3 & _).
  rewrite Hr3. simpl. pose proof Hm2 as Hm2'. rewrite <- Hm3 in Hm2.
  destruct (merge_files_effect conf i md2 _ w3 Hid Hm2 Hk2)
    as (w4 & md4 & Hr4 & Hm4 & Hk4 & Hn4 & Hu4).
  rewrite Hr4. simpl.
  fold U in Hn1. fold cand in Hn1.
  assert (url_set (urls_dir w1) i = U) as E1.
  { unfold url_set at 1. by rewrite Hu1. }
  assert (url_set (urls_dir w2) i = U) as E2.
  { unfold url_set at 1. by rewrite Hu2, Hu1. }
  fold cand in Hn3. rewrite E2 in Hn3.
  assert (url_set (urls_dir w3) i = U) as E3.
  { unfold url_set at 1. rewrite Hu3. unfold url_set in E2.
    by destruct (urls_dir w2 !! i). }
  rewrite Hn3 in Hk4. simpl in Hk4. rewrite set_list_length in Hk4.
  rewrite Hn1 in Hk2, Hk4. simpl in Hk2, Hk4. rewrite set_list_length in Hk2, Hk4.
  split_and!.
  - rewrite (url_set_lookup _ _ _ Hn1). by rewrite set_list_set.
  - rewrite (url_set_lookup _ _ _ Hn3). by rewrite set_list_set.
  - unfold url_set at 1. rewrite Hu4. unfold url_set in E3.
    by destruct (urls_dir w3 !! i).
  - exists md4. split; [done|]. rewrite Hk4. f_equal. lia.
Qed.

End runs.

Lemma commit_partial_on_missing_config_witness :
  (merge_files elements techcrunch_conf no_config_world).1
  = Raise (FileNotFoundError "sample_mapping.json")
  ∧ url_set (new_urls_dir (merge_files elements techcrunch_conf no_config_world).2)
      "techcrunch"
    = {[ "a.com/1"; "a.com/2"; "a.com/3"; "a.com/4" ]}.
Proof.
  destruct (commit_partial_on_missing_config elements techcrunch_conf "techcrunch"
              ["a.com/3"; "a.com/4"] no_config_world eq_refl eq_refl
              ltac:(discriminate) eq_refl)
    as (Hraise & Hn & _).
  split; [exact Hraise|].
  rewrite (url_set_lookup _ _ _ Hn). compute_done.
Defined.

Lemma double_commit_recounts_witness :
  ∃ md2,
    map_file (merge_files elements techcrunch_conf
                (merge_files elements techcrunch_conf scenario_delta_world).2).2
    = Some md2
    ∧ lookup_cnt "techcrunch" md2 = Some 13.
Proof.
  destruct (double_commit_recounts elements (λ s, reflexivity _) techcrunch_conf
              "techcrunch" [techcrunch_conf; inc42_conf] 7 scenario_delta_world
              eq_refl eq_refl eq_refl)
    as (md2 & Hm & Hk & _).
  exists md2. split; [exact Hm|]. rewrite Hk. f_equal.
Defined.

(** The run after the commit of the scenario: the four URLs that commit
    left in the DeltaSet file are still there. *)
Lemma rss_run_raises_witness :
  let r := RssHandler.reconcile elements techcrunch_conf_next committed_world in
  r.1 = Raise (NameError "proxies")
  ∧ new_urls_dir r.2 !! "techcrunch" = new_urls_dir committed_world !! "techcrunch".
Proof.
  destruct (rss_run_raises elements techcrunch_conf_next "techcrunch"
              "https://techcrunch.com/feed/" committed_world eq_refl eq_refl)
    as (Hr & _ & Hn & _).
  split; [exact Hr|]. etransitivity; [exact Hn|]. compute_done.
Defined.

Lemma xpath_run_twice_witness :
  let w1 := (CustomScraper.reconcile elements inc42_conf ["b.com/1"] scenario_world).2 in
  let w2 := (merge_files elements inc42_conf w1).2 in
  let w3 := (CustomScraper.reconcile elements inc42_conf ["b.com/1"] w2).2 in
  url_set (new_urls_dir w3) "inc42" = url_set (new_urls_dir w1) "inc42".
Proof.
  destruct (xpath_run_twice elements (λ s, reflexivity _) inc42_conf "inc42"
              "//h2/a" "https://inc42.com/buzz/" [techcrunch_conf; inc42_conf] 0
              ["b.com/1"] scenario_world eq_refl eq_refl eq_refl eq_refl eq_refl)
    as (H1 & H3 & _).
  intros w1 w2 w3. etransitivity; [exact H3 | symmetry; exact H1].
Defined.

(** ** The tables *)

Lemma next_rowid_gt (seq : Z) (ids : list Z) :
  seq < Tables.next_rowid seq ids ∧ ∀ j, j ∈ ids → j < Tables.next_rowid seq ids.
Proof.
  unfold Tables.next_rowid. induction ids as [|i ids [IH1 IH2]]; simpl.
  - split; [lia|]. intros j Hj. by apply elem_of_nil in Hj.
  - split; [lia|]. intros j Hj. apply elem_of_cons in Hj as [->|Hj]; [lia|].
    specialize (IH2 j Hj). lia.
Qed.

Lemma next_rowid_fresh (seq : Z) (ids : list Z) :
  Tables.next_rowid seq ids ∉ ids.
Proof.
  intros Hin. destruct (next_rowid_gt seq ids) as [_ H].
  specialize (H _ Hin). lia.
Qed.

Lemma select_id_Some name rows i :
  Tables.select_id name rows = Some i → (i, name) ∈ rows.
Proof.
  unfold Tables.select_id.
  destruct (filter _ rows) as [|[j n] l] eqn:Hf; [done|]. simpl. intros [= <-].
  assert ((j, n) ∈ filter (λ r, r.2 = name) rows) as Hin by (rewrite Hf; set_solver).
  apply list_elem_of_filter in Hin as [Hn Hin]. simpl in Hn. by subst.
Qed.

Lemma select_id_None name rows :
  Tables.select_id name rows = None → name ∉ (snd <$> rows).
Proof.
  unfold Tables.select_id.
  destruct (filter _ rows) as [|[j n] l] eqn:Hf; [|done]. intros _ Hin.
  apply list_elem_of_fmap in Hin as ([j n] & Hn & Hin). simpl in Hn. subst name.
  assert ((j, n) ∈ filter (λ r, r.2 = n) rows) as Hin'
    by (by apply list_elem_of_filter).
  rewrite Hf in Hin'. by apply elem_of_nil in Hin'.
Qed.

Lemma select_id_app_new name rows i :
  Tables.select_id name rows = None →
  Tables.select_id name (rows ++ [(i, name)]) = Some i.
Proof.
  unfold Tables.select_id. rewrite filter_app.
  destruct (filter _ rows) as [|x l]; [|done]. intros _.
  rewrite filter_cons_True by done. done.
Qed.

(** [get_or_create_tag] returns the id of a row with that name, inserts a
    row only for a name that the table does not hold yet (so the UNIQUE
    constraint and the primary key cannot be violated), keeps every existing
    row, and a second call returns the same id and changes nothing. *)
Theorem get_or_create_tag_spec (name : string) (d : Tables.t) :
  let r := Tables.get_or_create_tag name d in
  (r.1, name) ∈ Tables.tags r.2
  ∧ (Tables.tags r.2 = Tables.tags d
     ∨ ((name ∉ snd <$> Tables.tags d) ∧ (r.1 ∉ fst <$> Tables.tags d)
        ∧ Tables.tags r.2 = Tables.tags d ++ [(r.1, name)]))
  ∧ Tables.get_or_create_tag name r.2 = r
  ∧ Tables.articles r.2 = Tables.articles d
  ∧ Tables.subtags r.2 = Tables.subtags d
  ∧ Tables.article_tags r.2 = Tables.article_tags d
  ∧ Tables.article_subtags r.2 = Tables.article_subtags d.
Proof.
  unfold Tables.get_or_create_tag.
  destruct (Tables.select_id name (Tables.tags d)) as [i|] eqn:Hs; simpl.
  - rewrite Hs. split_and!; auto. by apply select_id_Some.
  - rewrite (select_id_app_new _ _ _ Hs). split_and!; auto.
    + set_solver.
    + right. split_and!; [by apply select_id_None | apply next_rowid_fresh | done].
Qed.

Lemma get_or_create_tag_constraints name d :
  constraints d → constraints (Tables.get_or_create_tag name d).2.
Proof.
  intros (Ha & Hti & Htn & Hsi & Hsn & Hat & Hast).
  unfold Tables.get_or_create_tag.
  destruct (Tables.select_id name (Tables.tags d)) as [i|] eqn:Hs; simpl.
  { by split_and!. }
  split_and!; simpl; try done.
  - rewrite fmap_app. apply NoDup_app. split_and!; [done| |apply NoDup_singleton].
    intros x Hx Hx'. apply list_elem_of_singleton in Hx'. subst x.
    by apply next_rowid_fresh in Hx.
  - rewrite fmap_app. apply NoDup_app. split_and!; [done| |apply NoDup_singleton].
    intros x Hx Hx'. apply list_elem_of_singleton in Hx'. subst x.
    by apply select_id_None in Hs.
Qed.

Lemma get_or_create_subtag_constraints name d :
  constraints d → constraints (Tables.get_or_create_subtag name d).2.
Proof.
  intros (Ha & Hti & Htn & Hsi & Hsn & Hat & Hast).
  unfold Tables.get_or_create_subtag.
  destruct (Tables.select_id name (Tables.subtags d)) as [i|] eqn:Hs; simpl.
  { by split_and!. }
  split_and!; simpl; try done.
  - rewrite fmap_app. apply NoDup_app. split_and!; [done| |apply NoDup_singleton].
    intros x Hx Hx'. apply list_elem_of_singleton in Hx'. subst x.
    by apply next_rowid_fresh in Hx.
  - rewrite fmap_app. apply NoDup_app. split_and!; [done| |apply NoDup_singleton].
    intros x Hx Hx'. apply list_elem_of_singleton in Hx'. subst x.
    by apply select_id_None in Hs.
Qed.

Lemma insert_or_ignore_NoDup pair rows :
  NoDup rows → NoDup (Tables.insert_or_ignore pair rows).
Proof.
  intros H. unfold Tables.insert_or_ignore. destruct (decide (pair ∈ rows)); [done|].
  apply NoDup_app. split_and!; [done| |apply NoDup_singleton].
  intros x Hx Hx'. apply list_elem_of_singleton in Hx'. by subst.
Qed.

Lemma link_tag_constraints a d tag :
  constraints d → constraints (Tables.link_tag a d tag).
Proof.
  intros Hc. apply (get_or_create_tag_constraints tag) in Hc.
  unfold Tables.link_tag.
  destruct (Tables.get_or_create_tag tag d) as [tid d']. simpl in *.
  destruct Hc as (Ha & Hti & Htn & Hsi & Hsn & Hat & Hast).
  split_and!; simpl; try done. by apply insert_or_ignore_NoDup.
Qed.

Lemma link_subtag_constraints a d subtag :
  constraints d → constraints (Tables.link_subtag a d subtag).
Proof.
  intros Hc. apply (get_or_create_subtag_constraints subtag) in Hc.
  unfold Tables.link_subtag.
  destruct (Tables.get_or_create_subtag subtag d) as [sid d']. simpl in *.
  destruct Hc as (Ha & Hti & Htn & Hsi & Hsn & Hat & Hast).
  split_and!; simpl; try done. by apply insert_or_ignore_NoDup.
Qed.

Lemma link_tags_articles a d names :
  Tables.articles (foldl (Tables.link_tag a) d names) = Tables.articles d
  ∧ Tables.articles_seq (foldl (Tables.link_tag a) d names) = Tables.articles_seq d.
Proof.
  revert d. induction names as [|n names IH]; intros d; simpl; [done|].
  destruct (IH (Tables.link_tag a d n)) as [-> ->].
  unfold Tables.link_tag, Tables.get_or_create_tag.
  by destruct (Tables.select_id n (Tables.tags d)).
Qed.

Lemma link_subtags_articles a d names :
  Tables.articles (foldl (Tables.link_subtag a) d names) = Tables.articles d
  ∧ Tables.articles_seq (foldl (Tables.link_subtag a) d names) = Tables.articles_seq d.
Proof.
  revert d. induction names as [|n names IH]; intros d; simpl; [done|].
  destruct (IH (Tables.link_subtag a d n)) as [-> ->].
  unfold Tables.link_subtag, Tables.get_or_create_subtag.
  by destruct (Tables.select_id n (Tables.subtags d)).
Qed.

Lemma insert_article_articles html pos tag_names subtag_names d :
  let a := Tables.next_rowid (Tables.articles_seq d)
             (DBHandler.row_id <$> Tables.articles d) in
  Tables.articles (Tables.insert_article html pos tag_names subtag_names d)
  = Tables.articles d ++ [DBHandler.Row a html pos]
  ∧ Tables.articles_seq (Tables.insert_article html pos tag_names subtag_names d) = a.
Proof.
  unfold Tables.insert_article.
  destruct (link_subtags_articles
              (Tables.next_rowid (Tables.articles_seq d)
                 (DBHandler.row_id <$> Tables.articles d))
              (foldl (Tables.link_tag
                        (Tables.next_rowid (Tables.articles_seq d)
                           (DBHandler.row_id <$> Tables.articles d)))
                 (Tables.DB
                    (Tables.articles d ++
                       [DBHandler.Row
                          (Tables.next_rowid (Tables.articles_seq d)
                             (DBHandler.row_id <$> Tables.articles d)) html pos])
                    (Tables.next_rowid (Tables.articles_seq d)
                       (DBHandler.row_id <$> Tables.articles d))
                    (Tables.tags d) (Tables.tags_seq d) (Tables.subtags d)
                    (Tables.subtags_seq d) (Tables.article_tags d)
                    (Tables.article_subtags d)) tag_names) subtag_names)
    as [-> ->].
  by destruct (link_tags_articles
              (Tables.next_rowid (Tables.articles_seq d)
                 (DBHandler.row_id <$> Tables.articles d))
              (Tables.DB
                 (Tables.articles d ++
                    [DBHandler.Row
                       (Tables.next_rowid (Tables.articles_seq d)
                          (DBHandler.row_id <$> Tables.articles d)) html pos])
                 (Tables.next_rowid (Tables.articles_seq d)
                    (DBHandler.row_id <$> Tables.articles d))
                 (Tables.tags d) (Tables.tags_seq d) (Tables.subtags d)
                 (Tables.subtags_seq d) (Tables.article_tags d)
                 (Tables.article_subtags d)) tag_names) as [-> ->].
Qed.

Lemma foldl_constraints (f : Tables.t → string → Tables.t) names d :
  (∀ d n, constraints d → constraints (f d n)) →
  constraints d → constraints (foldl f d names).
Proof.
  intros Hf. revert d. induction names as [|n names IH]; intros d Hd; simpl; auto.
Qed.

Lemma insert_article_constraints_aux html pos tag_names subtag_names d :
  constraints d →
  constraints (Tables.insert_article html pos tag_names subtag_names d).
Proof.
  intros Hc. unfold Tables.insert_article.
  apply foldl_constraints; [intros; by apply link_subtag_constraints|].
  apply foldl_constraints; [intros; by apply link_tag_constraints|].
  destruct Hc as (Hart & Hrest). split; [|exact Hrest]. simpl.
  rewrite fmap_app. apply NoDup_app. split_and!; [done| |apply NoDup_singleton].
  intros x Hx Hx'. apply list_elem_of_singleton in Hx'. subst x.
  by apply next_rowid_fresh in Hx.
Qed.

(** [insert_article] appends one row to [articles] whose id is above every
    id of the table and above the last id ever given, and it keeps all the
    constraints of the schema: no insert of the function can fail on a
    key. In particular the ids stay distinct, which is what
    [delete_duplicates] needs. *)
Theorem insert_article_keeps_constraints html pos tag_names subtag_names d :
  constraints d →
  let d' := Tables.insert_article html pos tag_names subtag_names d in
  constraints d'
  ∧ ∃ a, Tables.articles d' = Tables.articles d ++ [DBHandler.Row a html pos]
         ∧ Tables.articles_seq d' = a
         ∧ Tables.articles_seq d < a
         ∧ ∀ r, r ∈ Tables.articles d → DBHandler.row_id r < a.
Proof.
  intros Hc d'. subst d'.
  destruct (insert_article_articles html pos tag_names subtag_names d) as [Ha Hs].
  destruct (next_rowid_gt (Tables.articles_seq d)
              (DBHandler.row_id <$> Tables.articles d)) as [Hseq Hids].
  split.
  - by apply insert_article_constraints_aux.
  - eexists. split_and!; [exact Ha | exact Hs | exact Hseq |].
    intros r Hr. apply Hids. apply list_elem_of_fmap. eauto.
Qed.

Lemma constraints_empty : constraints Tables.empty.
Proof. repeat split; simpl; apply NoDup_nil_2. Qed.

Lemma insert_article_keeps_constraints_witness :
  constraints (Tables.insert_article (Some "a.com/3") "techcrunch_0008"
                 ["AI"; "Funding"; "AI"] ["openai"] Tables.empty).
Proof.
  apply (insert_article_keeps_constraints (Some "a.com/3") "techcrunch_0008"
           ["AI"; "Funding"; "AI"] ["openai"] Tables.empty constraints_empty).
Defined.

(** ** Inserted articles are found by the query *)

Lemma joined_true links names a name :
  Tables.joined links names a name = true
  ↔ ∃ i, (a, i) ∈ links ∧ (i, name) ∈ names.
Proof.
  unfold Tables.joined. rewrite existsb_exists. split.
  - intros ([a' i] & Hin & H). simpl in H.
    apply andb_true_iff in H as [Ha H]. apply Z.eqb_eq in Ha. subst a'.
    apply existsb_exists in H as ([i' n] & Hin' & H). simpl in H.
    apply andb_true_iff in H as [Hi Hn]. apply Z.eqb_eq in Hi.
    apply String.eqb_eq in Hn. subst.
    exists i. split; by apply list_elem_of_In.
  - intros (i & Hl & Hn). exists (a, i). split; [by apply list_elem_of_In|].
    simpl. rewrite Z.eqb_refl. simpl. apply existsb_exists.
    exists (i, name). split; [by apply list_elem_of_In|].
    simpl. by rewrite Z.eqb_refl, String.eqb_refl.
Qed.

Lemma elem_of_insert_or_ignore pair rows x :
  x ∈ Tables.insert_or_ignore pair rows ↔ x = pair ∨ x ∈ rows.
Proof.
  unfold Tables.insert_or_ignore. destruct (decide (pair ∈ rows)); set_solver.
Qed.

Lemma get_or_create_tag_grows name d x :
  x ∈ Tables.tags d → x ∈ Tables.tags (Tables.get_or_create_tag name d).2.
Proof.
  unfold Tables.get_or_create_tag.
  destruct (Tables.select_id name (Tables.tags d)); simpl; set_solver.
Qed.

Lemma get_or_create_subtag_grows name d x :
  x ∈ Tables.subtags d → x ∈ Tables.subtags (Tables.get_or_create_subtag name d).2.
Proof.
  unfold Tables.get_or_create_subtag.
  destruct (Tables.select_id name (Tables.subtags d)); simpl; set_solver.
Qed.

Lemma link_tag_has_tag a d tag :
  Tables.has_tag (Tables.link_tag a d tag) a tag = true
  ∧ (∀ b n, Tables.has_tag d b n = true →
            Tables.has_tag (Tables.link_tag a d tag) b n = true)
  ∧ Tables.subtags (Tables.link_tag a d tag) = Tables.subtags d
  ∧ Tables.article_subtags (Tables.link_tag a d tag) = Tables.article_subtags d.
Proof.
  unfold Tables.has_tag, Tables.link_tag.
  pose proof (get_or_create_tag_grows tag d) as Hgrow.
  assert (((Tables.get_or_create_tag tag d).1, tag)
           ∈ Tables.tags (Tables.get_or_create_tag tag d).2) as Hin.
  { unfold Tables.get_or_create_tag.
    destruct (Tables.select_id tag (Tables.tags d)) as [i|] eqn:Hs; simpl.
    - by apply select_id_Some.
    - set_solver. }
  assert (Tables.article_tags (Tables.get_or_create_tag tag d).2 = Tables.article_tags d
          ∧ Tables.subtags (Tables.get_or_create_tag tag d).2 = Tables.subtags d
          ∧ Tables.article_subtags (Tables.get_or_create_tag tag d).2
            = Tables.article_subtags d) as (Hat & Hsub & Hast).
  { unfold Tables.get_or_create_tag.
    by destruct (Tables.select_id tag (Tables.tags d)). }
  destruct (Tables.get_or_create_tag tag d) as [tid d']. simpl in *.
  split_and!; try done.
  - apply joined_true. exists tid. split; [|done].
    apply elem_of_insert_or_ignore. by left.
  - intros b n Hb. apply joined_true in Hb as (i & Hl & Hn).
    apply joined_true. exists i. split; [|by apply Hgrow].
    apply elem_of_insert_or_ignore. right. by rewrite Hat.
Qed.

Lemma link_subtag_has_subtag a d subtag :
  Tables.has_subtag (Tables.link_subtag a d subtag) a subtag = true
  ∧ (∀ b n, Tables.has_subtag d b n = true →
            Tables.has_subtag (Tables.link_subtag a d subtag) b n = true)
  ∧ Tables.tags (Tables.link_subtag a d subtag) = Tables.tags d
  ∧ Tables.article_tags (Tables.link_subtag a d subtag) = Tables.article_tags d.
Proof.
  unfold Tables.has_subtag, Tables.link_subtag.
  pose proof (get_or_create_subtag_grows subtag d) as Hgrow.
  assert (((Tables.get_or_create_subtag subtag d).1, subtag)
           ∈ Tables.subtags (Tables.get_or_create_subtag subtag d).2) as Hin.
  { unfold Tables.get_or_create_subtag.
    destruct (Tables.select_id subtag (Tables.subtags d)) as [i|] eqn:Hs; simpl.
    - by apply select_id_Some.
    - set_solver. }
  assert (Tables.article_subtags (Tables.get_or_create_subtag subtag d).2
          = Tables.article_subtags d
          ∧ Tables.tags (Tables.get_or_create_subtag subtag d).2 = Tables.tags d
          ∧ Tables.article_tags (Tables.get_or_create_subtag subtag d).2
            = Tables.article_tags d) as (Hast & Ht & Hat).
  { unfold Tables.get_or_create_subtag.
    by destruct (Tables.select_id subtag (Tables.subtags d)). }
  destruct (Tables.get_or_create_subtag subtag d) as [sid d']. simpl in *.
  split_and!; try done.
  - apply joined_true. exists sid. split; [|done].
    apply elem_of_insert_or_ignore. by left.
  - intros b n Hb. apply joined_true in Hb as (i & Hl & Hn).
    apply joined_true. exists i. split; [|by apply Hgrow].
    apply elem_of_insert_or_ignore. right. by rewrite Hast.
Qed.

Lemma link_tags_has_tag a names d :
  (∀ n, n ∈ names → Tables.has_tag (foldl (Tables.link_tag a) d names) a n = true)
  ∧ (∀ b n, Tables.has_tag d b n = true →
            Tables.has_tag (foldl (Tables.link_tag a) d names) b n = true).
Proof.
  revert d. induction names as [|x names IH]; intros d; simpl.
  { split; [|done]. intros n Hn. by apply elem_of_nil in Hn. }
  destruct (IH (Tables.link_tag a d x)) as [IH1 IH2].
  destruct (link_tag_has_tag a d x) as (Hx & Hmono & _).
  split.
  - intros n Hn. apply elem_of_cons in Hn as [->|Hn]; auto.
  - intros b n Hb. auto.
Qed.

Lemma link_subtags_mono a names d b n :
  Tables.has_subtag d b n = true →
  Tables.has_subtag (foldl (Tables.link_subtag a) d names) b n = true.
Proof.
  revert d. induction names as [|x names IH]; intros d Hd; simpl; [done|].
  apply IH. by apply link_subtag_has_subtag.
Qed.

Lemma link_subtags_has_subtag a names d :
  (∀ n, n ∈ names →
        Tables.has_subtag (foldl (Tables.link_subtag a) d names) a n = true)
  ∧ (∀ b n, Tables.has_tag d b n = true →
            Tables.has_tag (foldl (Tables.link_subtag a) d names) b n = true).
Proof.
  revert d. induction names as [|x names IH]; intros d; simpl.
  { split; [|done]. intros n Hn. by apply elem_of_nil in Hn. }
  destruct (IH (Tables.link_subtag a d x)) as [IH1 IH2].
  destruct (link_subtag_has_subtag a d x) as (Hx & Hmono & Ht & Hat).
  split.
  - intros n Hn. apply elem_of_cons in Hn as [->|Hn]; [|auto].
    by apply link_subtags_mono.
  - intros b n Hb. apply IH2. unfold Tables.has_tag in *. by rewrite Ht, Hat.
Qed.

(** An article inserted with its tags and subtags is found by the query
    for any non-empty choice of its tags, alone or together with a list of
    subtags of which it carries at least one; a query without tags finds it
    by one of its subtags. *)
Theorem insert_then_query html pos tag_names subtag_names query_tags query_subtags d :
  (query_tags ≠ [] ∨ query_subtags ≠ []) →
  (∀ n, n ∈ query_tags → n ∈ tag_names) →
  (query_subtags = [] ∨ ∃ n, n ∈ query_subtags ∧ n ∈ subtag_names) →
  pos ∈ Tables.get_pos_by_tag_and_subtag query_tags query_subtags
          (Tables.insert_article html pos tag_names subtag_names d).
Proof.
  intros Hne Htags Hsub.
  set (d' := Tables.insert_article html pos tag_names subtag_names d).
  set (a := Tables.next_rowid (Tables.articles_seq d)
              (DBHandler.row_id <$> Tables.articles d)).
  assert (DBHandler.Row a html pos ∈ Tables.articles d') as Hrow.
  { destruct (insert_article_articles html pos tag_names subtag_names d) as [Ha _].
    unfold d'. rewrite Ha. set_solver. }
  assert (∀ n, n ∈ tag_names → Tables.has_tag d' a n = true) as Hhas.
  { intros n Hn. unfold d', Tables.insert_article. fold a.
    apply (proj2 (link_subtags_has_subtag _ _ _)).
    by apply (proj1 (link_tags_has_tag _ _ _)). }
  assert (∀ n, n ∈ subtag_names → Tables.has_subtag d' a n = true) as Hhass.
  { intros n Hn. unfold d', Tables.insert_article. fold a.
    by apply (proj1 (link_subtags_has_subtag _ _ _)). }
  assert (pos ∈ remove_dups
            (DBHandler.row_pos <$>
               filter (λ r,
                         forallb (Tables.has_tag d' (DBHandler.row_id r)) query_tags = true
                         ∧ (query_subtags = []
                            ∨ existsb (Tables.has_subtag d' (DBHandler.row_id r))
                                query_subtags = true))
                      (Tables.articles d'))) as Hin.
  { rewrite elem_of_remove_dups. apply list_elem_of_fmap.
    exists (DBHandler.Row a html pos). split; [done|].
    apply list_elem_of_filter. split; [|done]. simpl. split.
    - apply forallb_forall. intros n Hn. apply Hhas, Htags. by apply list_elem_of_In.
    - destruct Hsub as [->|(n & Hq & Hs)]; [by left|right].
      apply existsb_exists. exists n. split; [by apply list_elem_of_In|auto]. }
  unfold Tables.get_pos_by_tag_and_subtag.
  destruct query_tags, query_subtags; try done. by destruct Hne.
Qed.

Lemma insert_then_query_witness :
  "techcrunch_0008"
  ∈ Tables.get_pos_by_tag_and_subtag ["AI"] ["gpt"; "openai"]
      (Tables.insert_article (Some "a.com/3") "techcrunch_0008"
         ["AI"; "Funding"] ["openai"] Tables.empty).
Proof.
  apply (insert_then_query (Some "a.com/3") "techcrunch_0008" ["AI"; "Funding"]
           ["openai"] ["AI"] ["gpt"; "openai"] Tables.empty).
  - left. discriminate.
  - intros n Hn. apply list_elem_of_singleton in Hn as ->. compute_done.
  - right. exists "openai". split; compute_done.
Defined.

(** ** More on deduplication *)

Lemma filter_ext_in {A} (P Q : A → Prop) `{∀ x, Decision (P x)} `{∀ x, Decision (Q x)}
    (l : list A) :
  (∀ x, x ∈ l → (P x ↔ Q x)) → filter P l = filter Q l.
Proof.
  induction l as [|x l IH]; intros Hext; [done|].
  rewrite !filter_cons.
  destruct (decide (P x)) as [HP|HP], (decide (Q x)) as [HQ|HQ].
  - f_equal. apply IH. intros y Hy. apply Hext. set_solver.
  - exfalso. apply HQ, (Hext x); [set_solver|done].
  - exfalso. apply HP, (Hext x); [set_solver|done].
  - apply IH. intros y Hy. apply Hext. set_solver.
Qed.

Lemma filter_all {A} (P : A → Prop) `{∀ x, Decision (P x)} (l : list A) :
  (∀ x, x ∈ l → P x) → filter P l = l.
Proof.
  induction l as [|x l IH]; intros Hall; [done|].
  rewrite filter_cons_True by (apply Hall; set_solver).
  f_equal. apply IH. intros y Hy. apply Hall. set_solver.
Qed.

Lemma delete_duplicates_keeps (t : list DBHandler.row) r :
  NoDup (DBHandler.row_id <$> t) → r ∈ t →
  (DBHandler.row_id r ∈ DBHandler.select_min_ids t
   ↔ ∀ r', r' ∈ t → DBHandler.group_key r' = DBHandler.group_key r →
           DBHandler.row_id r ≤ DBHandler.row_id r').
Proof.
  intros Hnd Hr.
  pose proof (elem_of_delete_duplicates t r Hnd) as H.
  unfold DBHandler.delete_duplicates in H. rewrite list_elem_of_filter in H.
  tauto.
Qed.

Lemma NoDup_ids_sublist (t t' : list DBHandler.row) :
  sublist t' t → NoDup (DBHandler.row_id <$> t) → NoDup (DBHandler.row_id <$> t').
Proof.
  intros Hs Hnd. eapply sublist_NoDup; [exact Hnd|by apply fmap_sublist].
Qed.

(** [delete_duplicates] is idempotent, and it leaves a table in which no
    two rows have the same [(pos, html)] pair as it is. *)
Theorem delete_duplicates_idempotent (t : list DBHandler.row) :
  NoDup (DBHandler.row_id <$> t) →
  DBHandler.delete_duplicates (DBHandler.delete_duplicates t)
  = DBHandler.delete_duplicates t
  ∧ ((∀ r1 r2, r1 ∈ t → r2 ∈ t →
               DBHandler.group_key r1 = DBHandler.group_key r2 → r1 = r2) →
     DBHandler.delete_duplicates t = t).
Proof.
  intros Hnd. split.
  - assert (NoDup (DBHandler.row_id <$> DBHandler.delete_duplicates t)) as Hnd'.
    { apply (NoDup_ids_sublist t); [apply sublist_filter|done]. }
    unfold DBHandler.delete_duplicates at 1. apply filter_all. intros r Hr.
    apply (delete_duplicates_keeps _ _ Hnd' Hr). intros r' Hr' Hk.
    apply (elem_of_delete_duplicates _ _ Hnd) in Hr as [Hr Hlow].
    apply (elem_of_delete_duplicates _ _ Hnd) in Hr' as [Hr' _]. by apply Hlow.
  - intros Huniq. unfold DBHandler.delete_duplicates. apply filter_all.
    intros r Hr. apply (delete_duplicates_keeps _ _ Hnd Hr). intros r' Hr' Hk.
    by rewrite (Huniq r' r Hr' Hr Hk).
Qed.

Lemma delete_duplicates_idempotent_witness :
  DBHandler.delete_duplicates (DBHandler.delete_duplicates duplicated_table)
  = DBHandler.delete_duplicates duplicated_table.
Proof.
  apply (delete_duplicates_idempotent duplicated_table). compute_done.
Defined.

Lemma delete_duplicates_app_dup (t : list DBHandler.row) r1 r2 :
  NoDup (DBHandler.row_id <$> (t ++ [r2])) → r1 ∈ t →
  DBHandler.group_key r1 = DBHandler.group_key r2 →
  DBHandler.row_id r1 < DBHandler.row_id r2 →
  DBHandler.delete_duplicates (t ++ [r2]) = DBHandler.delete_duplicates t.
Proof.
  intros Hnd Hr1 Hk Hlt.
  assert (NoDup (DBHandler.row_id <$> t)) as Hndt.
  { rewrite fmap_app in Hnd. by apply NoDup_app in Hnd as [? _]. }
  unfold DBHandler.delete_duplicates at 1. rewrite filter_app.
  rewrite filter_cons_False, filter_nil, app_nil_r.
  - unfold DBHandler.delete_duplicates. apply filter_ext_in. intros r Hr.
    rewrite (delete_duplicates_keeps (t ++ [r2]) r Hnd) by set_solver.
    rewrite (delete_duplicates_keeps t r Hndt Hr). split.
    + intros Hlow r' Hr'. apply Hlow. set_solver.
    + intros Hlow r' Hr' Hk'. apply elem_of_app in Hr' as [Hr'|Hr'].
      * by apply Hlow.
      * apply list_elem_of_singleton in Hr'. subst r'.
        specialize (Hlow r1 Hr1). rewrite Hk in Hlow. specialize (Hlow Hk'). lia.
  - intros Hin.
    assert (r2 ∈ t ++ [r2]) as Hr2 by set_solver.
    pose proof (proj1 (delete_duplicates_keeps (t ++ [r2]) r2 Hnd Hr2) Hin) as Hlow.
    clear Hin. rename Hlow into Hin.
    specialize (Hin r1). rewrite Hk in Hin.
    assert (DBHandler.row_id r2 ≤ DBHandler.row_id r1) by (apply Hin; set_solver).
    lia.
Qed.

(** The pipeline's answer to a repeated run: when the same record is
    inserted a second time (same [html] and [pos], any tags),
    [delete_duplicates] removes the second row and leaves the [articles]
    table as it is after the first insert and a deduplication. *)
Theorem reinsert_then_dedup html pos tags1 subtags1 tags2 subtags2 d :
  constraints d →
  let d1 := Tables.insert_article html pos tags1 subtags1 d in
  let d2 := Tables.insert_article html pos tags2 subtags2 d1 in
  Tables.articles (Tables.delete_duplicates d2)
  = Tables.articles (Tables.delete_duplicates d1).
Proof.
  intros Hc d1 d2. simpl.
  destruct (insert_article_articles html pos tags1 subtags1 d) as [Ha1 Hs1].
  destruct (insert_article_articles html pos tags2 subtags2 d1) as [Ha2 Hs2].
  fold d1 in Ha1, Hs1. fold d2 in Ha2, Hs2.
  assert (constraints d1) as Hc1.
  { unfold d1.
    by apply insert_article_constraints_aux. }
  assert (constraints d2) as Hc2.
  { unfold d2.
    by apply insert_article_constraints_aux. }
  destruct Hc2 as [Hnd2 _]. rewrite Ha2 in Hnd2 |- *.
  set (a1 := Tables.next_rowid (Tables.articles_seq d)
               (DBHandler.row_id <$> Tables.articles d)) in *.
  set (a2 := Tables.next_rowid (Tables.articles_seq d1)
               (DBHandler.row_id <$> Tables.articles d1)) in *.
  apply (delete_duplicates_app_dup _ (DBHandler.Row a1 html pos)); [done| |done|].
  - rewrite Ha1. set_solver.
  - simpl. destruct (next_rowid_gt (Tables.articles_seq d1)
                       (DBHandler.row_id <$> Tables.articles d1)) as [Hseq _].
    fold a2 in Hseq. rewrite Hs1 in Hseq. done.
Qed.

Lemma reinsert_then_dedup_witness :
  Tables.articles
    (Tables.delete_duplicates
       (Tables.insert_article (Some "a.com/3") "techcrunch_0008" ["AI"] []
          (Tables.insert_article (Some "a.com/3") "techcrunch_0008" ["AI"] []
             Tables.empty)))
  = [DBHandler.Row 1 (Some "a.com/3") "techcrunch_0008"].
Proof.
  rewrite (reinsert_then_dedup (Some "a.com/3") "techcrunch_0008" ["AI"] []
             ["AI"] [] Tables.empty constraints_empty).
  vm_compute. reflexivity.
Defined.

(** ** The Tag stage *)

Section tagging.
Variable similar : string → string → bool.
Variable set_list : gset string → list string.
Variable str_container : json → string.

(** The keywords of one tag in the exact pass. *)
Lemma exact_keywords_spec (summary tag : string) (keywords : list string)
    (acc : gset string * gset string) :
  let r := foldl (λ '(tags, subtags) word,
                    if str_in (lower word) (lower summary)
                    then ({[tag]} ∪ tags, {[word]} ∪ subtags)
                    else (tags, subtags)) acc keywords in
  acc.1 ⊆ r.1 ∧ acc.2 ⊆ r.2
  ∧ r.1 ⊆ acc.1 ∪ {[tag]} ∧ r.2 ⊆ acc.2 ∪ list_to_set keywords
  ∧ ∀ w, w ∈ keywords → str_in (lower w) (lower summary) = true →
         tag ∈ r.1 ∧ w ∈ r.2.
Proof.
  revert acc. induction keywords as [|x keywords IH]; intros [tags subtags]; simpl.
  { split_and!; [set_solver..|]. intros w Hw. by apply elem_of_nil in Hw. }
  destruct (str_in (lower x) (lower summary)) eqn:Hx.
  - destruct (IH ({[tag]} ∪ tags, {[x]} ∪ subtags)) as (H1 & H2 & H3 & H4 & H5).
    simpl in *.
    match goal with
    | |- context [foldl ?f ?a keywords] =>
        set (r := foldl f a keywords) in *; clearbody r
    end.
    clear IH. split_and!; [clear H5 Hx; set_solver..|].
    intros w Hw Hin. apply elem_of_cons in Hw as [->|Hw]; [|by apply H5].
    clear H5 Hx Hin. split; [apply H1|apply H2]; set_solver.
  - destruct (IH (tags, subtags)) as (H1 & H2 & H3 & H4 & H5).
    simpl in *.
    match goal with
    | |- context [foldl ?f ?a keywords] =>
        set (r := foldl f a keywords) in *; clearbody r
    end.
    clear IH. split_and!; [clear H5 Hx; set_solver..|].
    intros w Hw Hin. apply elem_of_cons in Hw as [->|Hw]; [congruence|].
    by apply H5.
Qed.

Lemma exact_pass_spec (proper : list (string * list string)) (summary : string)
    (acc : gset string * gset string) :
  let r := Tagger.exact_pass proper summary acc in
  acc.1 ⊆ r.1 ∧ acc.2 ⊆ r.2
  ∧ r.1 ⊆ acc.1 ∪ list_to_set (fst <$> proper)
  ∧ r.2 ⊆ acc.2 ∪ list_to_set (mjoin (snd <$> proper))
  ∧ ∀ tag keywords w, (tag, keywords) ∈ proper → w ∈ keywords →
      str_in (lower w) (lower summary) = true → tag ∈ r.1 ∧ w ∈ r.2.
Proof.
  unfold Tagger.exact_pass. revert acc.
  induction proper as [|[tag keywords] proper IH]; intros acc.
  { cbn. split_and!; [set_solver..|]. intros ??? H. by apply elem_of_nil in H. }
  pose proof (exact_keywords_spec summary tag keywords acc) as Hk.
  cbn zeta in Hk. destruct Hk as (K1 & K2 & K3 & K4 & K5).
  cbn [foldl fmap list_fmap mjoin list_join fst snd list_to_set].
  rewrite list_to_set_app_L.
  match goal with
  | |- context [foldl _ (foldl ?f acc keywords) proper] =>
      set (acc' := foldl f acc keywords) in *
  end.
  destruct (IH acc') as (H1 & H2 & H3 & H4 & H5). clear IH.
  match goal with
  | |- context [foldl ?f acc' proper] =>
      set (r := foldl f acc' proper) in *; clearbody r
  end.
  clearbody acc'.
  set (P := list_to_set (fst <$> proper) : gset string) in *.
  set (Q := list_to_set (mjoin (snd <$> proper)) : gset string) in *.
  set (K := list_to_set keywords : gset string) in *.
  split_and!.
  - by etrans.
  - by etrans.
  - clearbody P Q K. intros x Hx. apply H3 in Hx.
    apply elem_of_union in Hx as [Hx|Hx]; [apply K3 in Hx|]; clear -Hx; set_solver.
  - clearbody P Q K. intros x Hx. apply H4 in Hx.
    apply elem_of_union in Hx as [Hx|Hx]; [apply K4 in Hx|]; clear -Hx; set_solver.
  - intros t kws w Hin Hw Hs. apply elem_of_cons in Hin as [[= -> ->]|Hin].
    + destruct (K5 w Hw Hs). split; [by apply H1|by apply H2].
    + by apply (H5 t kws).
Qed.

Lemma semantic_pass_spec (common : list (string * list string)) (summary : string)
    (acc : gset string * gset string) :
  let r := Tagger.semantic_pass similar common summary acc in
  acc.1 ⊆ r.1 ∧ acc.2 ⊆ r.2
  ∧ r.1 ⊆ acc.1 ∪ list_to_set (fst <$> common)
  ∧ r.2 ⊆ acc.2 ∪ list_to_set (mjoin (snd <$> common)).
Proof.
  unfold Tagger.semantic_pass. revert acc.
  induction common as [|[tag keywords] common IH]; intros [tags subtags].
  { cbn. split_and!; set_solver. }
  cbn [foldl fmap list_fmap mjoin list_join fst snd list_to_set].
  rewrite list_to_set_app_L.
  assert (list_to_set (Tagger.bert_embedding_tags similar summary keywords)
          ⊆ (list_to_set keywords : gset string)) as Hsub.
  { intros x. rewrite !elem_of_list_to_set. unfold Tagger.bert_embedding_tags.
    rewrite list_elem_of_filter. tauto. }
  set (P := list_to_set (fst <$> common) : gset string) in *.
  set (Q := list_to_set (mjoin (snd <$> common)) : gset string) in *.
  set (K := list_to_set keywords : gset string) in *.
  destruct (Tagger.bert_embedding_tags similar summary keywords) as [|m ms] eqn:Hm.
  - cbn beta iota.
    destruct (IH (tags, subtags)) as (H1 & H2 & H3 & H4). clear IH.
    cbn [fst snd] in H1, H2, H3, H4. fold P Q in H3, H4.
    match goal with
    | |- context [foldl ?f ?a common] => set (r := foldl f a common)
    end.
    change (tags ⊆ r.1) in H1. change (subtags ⊆ r.2) in H2.
    change (r.1 ⊆ tags ∪ P) in H3. change (r.2 ⊆ subtags ∪ Q) in H4.
    clearbody r P Q K. split_and!; [done|done|..].
    + intros x Hx. apply H3 in Hx. clear -Hx. set_solver.
    + intros x Hx. apply H4 in Hx. clear -Hx. set_solver.
  - cbn beta iota. set (M := list_to_set (m :: ms) : gset string) in *.
    destruct (IH ({[tag]} ∪ tags, M ∪ subtags)) as (H1 & H2 & H3 & H4). clear IH.
    cbn [fst snd] in H1, H2, H3, H4. fold P Q in H3, H4.
    match goal with
    | |- context [foldl ?f ?a common] => set (r := foldl f a common)
    end.
    change ({[tag]} ∪ tags ⊆ r.1) in H1. change (M ∪ subtags ⊆ r.2) in H2.
    change (r.1 ⊆ {[tag]} ∪ tags ∪ P) in H3.
    change (r.2 ⊆ M ∪ subtags ∪ Q) in H4.
    clearbody r P Q K M. split_and!.
    + intros x Hx. apply H1. clear -Hx. set_solver.
    + intros x Hx. apply H2. clear -Hx. set_solver.
    + intros x Hx. apply H3 in Hx. clear -Hx. set_solver.
    + intros x Hx. apply H4 in Hx. clear -Hx Hsub. set_solver.
Qed.

(** The record that [process_single_file] writes. *)
Lemma process_single_file_spec (self : Tagger.t) file_path data w :
  articles_dir w !! file_path = Some data →
  let summary := Tagger.str_json str_container (default (JStr "") (data !! "summary")) in
  let sets := Tagger.semantic_pass similar (Tagger.keys_common self) summary
                (Tagger.exact_pass (Tagger.keys_proper self) summary (∅, ∅)) in
  Tagger.process_single_file similar set_list str_container self file_path w
  = if String.eqb summary "" then (Ret tt, w)
    else (Ret tt,
          set_articles_dir
            <[file_path :=
                <["subtags" := JArr (JStr <$> set_list sets.2)]>
                  (<["tags" := JArr (JStr <$> set_list sets.1)]> data)]> w).
Proof.
  intros Hf summary sets. unfold Tagger.process_single_file.
  unfold mbind, M_bind, try_except, try_except_not_found, read_article,
    mret, M_ret.
  rewrite Hf. cbn beta iota. fold summary.
  destruct (String.eqb summary ""); [done|].
  fold sets. by destruct sets.
Qed.

Lemma process_single_file_missing (self : Tagger.t) file_path w :
  articles_dir w !! file_path = None →
  Tagger.process_single_file similar set_list str_container self file_path w
  = (Ret tt, w).
Proof.
  intros Hf. unfold Tagger.process_single_file.
  unfold mbind, M_bind, try_except, read_article, mret, M_ret. rewrite Hf.
  by destruct (decide _).
Qed.

(** The Tag stage never invents a tag: the tags it writes are names of the
    taxonomy and the subtags are keywords of the taxonomy. A record without
    a summary (or a missing file) is left as it is, and no file other than
    the record is touched. *)
Theorem tags_come_from_taxonomy (self : Tagger.t) file_path w :
  let r := Tagger.process_single_file similar set_list str_container self file_path w in
  r.1 = Ret tt
  ∧ urls_dir r.2 = urls_dir w ∧ new_urls_dir r.2 = new_urls_dir w
  ∧ map_file r.2 = map_file w ∧ llm_log r.2 = llm_log w
  ∧ (∀ key, key ≠ file_path → articles_dir r.2 !! key = articles_dir w !! key)
  ∧ (r.2 = w
     ∨ ∃ data (tags subtags : gset string),
         articles_dir w !! file_path = Some data
         ∧ articles_dir r.2 !! file_path
           = Some (<["subtags" := JArr (JStr <$> set_list subtags)]>
                     (<["tags" := JArr (JStr <$> set_list tags)]> data))
         ∧ tags ⊆ list_to_set (fst <$> Tagger.keys_proper self)
                  ∪ list_to_set (fst <$> Tagger.keys_common self)
         ∧ subtags ⊆ list_to_set (mjoin (snd <$> Tagger.keys_proper self))
                     ∪ list_to_set (mjoin (snd <$> Tagger.keys_common self))).
Proof.
  intros r. subst r.
  destruct (articles_dir w !! file_path) as [data|] eqn:Hf.
  2: { rewrite process_single_file_missing by done. simpl. split_and!; auto. }
  rewrite (process_single_file_spec self file_path data w Hf).
  destruct (String.eqb _ ""); simpl; [split_and!; auto|].
  split_and!; try done.
  - intros key Hkey. by rewrite lookup_insert_ne.
  - right. do 3 eexists. split; [done|]. rewrite lookup_insert_eq.
    split; [reflexivity|].
    set (summary := Tagger.str_json _ _).
    destruct (exact_pass_spec (Tagger.keys_proper self) summary (∅, ∅))
      as (_ & _ & E3 & E4 & _).
    destruct (semantic_pass_spec (Tagger.keys_common self) summary
                (Tagger.exact_pass (Tagger.keys_proper self) summary (∅, ∅)))
      as (_ & _ & S3 & S4).
    simpl in *. split; set_solver.
Qed.

Hypothesis set_list_perm : ∀ s, set_list s ≡ₚ elements s.

(** Exact pass: when the lower-cased keyword of a tag occurs in the
    lower-cased summary of a record, the record gets that tag and that
    keyword as subtag, whatever the semantic pass adds; all other fields of
    the record stay. *)
Theorem exact_keyword_tags_record (self : Tagger.t) file_path data summary
    tag keywords word w :
  articles_dir w !! file_path = Some data →
  data !! "summary" = Some (JStr summary) → summary ≠ "" →
  (tag, keywords) ∈ Tagger.keys_proper self → word ∈ keywords →
  str_in (lower word) (lower summary) = true →
  ∃ tags subtags : gset string,
    Tagger.process_single_file similar set_list str_container self file_path w
    = (Ret tt,
       set_articles_dir
         <[file_path := <["subtags" := JArr (JStr <$> set_list subtags)]>
                          (<["tags" := JArr (JStr <$> set_list tags)]> data)]> w)
    ∧ tag ∈ tags ∧ word ∈ subtags
    ∧ JStr tag ∈ JStr <$> set_list tags
    ∧ JStr word ∈ JStr <$> set_list subtags.
Proof using set_list_perm.
  intros Hf Hs Hne Htag Hword Hin.
  rewrite (process_single_file_spec self file_path data w Hf), Hs. simpl.
  destruct (String.eqb_spec summary ""); [done|].
  do 2 eexists. split; [reflexivity|].
  destruct (exact_pass_spec (Tagger.keys_proper self) summary (∅, ∅))
    as (_ & _ & _ & _ & Hhit).
  destruct (Hhit tag keywords word Htag Hword Hin) as [Ht Hw].
  destruct (semantic_pass_spec (Tagger.keys_common self) summary
              (Tagger.exact_pass (Tagger.keys_proper self) summary (∅, ∅)))
    as (M1 & M2 & _).
  assert (∀ (s : gset string) x, x ∈ s → JStr x ∈ JStr <$> set_list s) as Hlist.
  { intros s x Hx. apply list_elem_of_fmap. exists x. split; [done|].
    rewrite (set_list_perm s). by apply elem_of_elements. }
  split_and!; auto.
Qed.

End tagging.

Lemma exact_keyword_tags_record_witness :
  ∃ tags subtags : gset string,
    articles_dir
      (Tagger.process_single_file (λ _ _, false) elements (λ _, "")
         scenario_tagger "techcrunch_0008" tagging_world).2 !! "techcrunch_0008"
    = Some (<["subtags" := JArr (JStr <$> elements subtags)]>
              (<["tags" := JArr (JStr <$> elements tags)]>
                 (<["url" := JStr "a.com/3"]>
                    (<["summary" := JStr "OpenAI released a new model"]> ∅))))
    ∧ "AI" ∈ tags ∧ "openai" ∈ subtags.
Proof.
  destruct (exact_keyword_tags_record (λ _ _, false) elements (λ _, "")
              (λ s, reflexivity _) scenario_tagger "techcrunch_0008"
              (<["url" := JStr "a.com/3"]>
                 (<["summary" := JStr "OpenAI released a new model"]> ∅))
              "OpenAI released a new model" "AI" ["openai"; "gpt"] "openai"
              tagging_world)
    as (tags & subtags & Hr & Ht & Hs & _).
  - reflexivity.
  - reflexivity.
  - discriminate.
  - compute_done.
  - compute_done.
  - reflexivity.
  - exists tags, subtags. rewrite Hr. simpl. rewrite lookup_insert_eq.
    split_and!; [reflexivity|exact Ht|exact Hs].
Defined.
